(** * Echo: the command dispatch loop and the Chronicle store of [bot.py]

    A shallow embedding of [src/bot.py].  Python [str] values are sequences
    of Unicode code points; the SQLite table [logs] is a list of rows plus
    the AUTOINCREMENT counter; handlers run in a small monad that threads
    the database, records every [channel.send] and every [cursor.execute]
    in order, and propagates Python exceptions, those of the gateway's
    [send] included.

    Conventions.  Between [sqlite3.connect] and [conn.close()] no handler
    awaits, so as far as the store is concerned events are handled one
    after the other.  Any sqlite3 call of a handler may raise, and so may
    any [channel.send]; which ones do is chosen by the surroundings.  Row ids are mathematical integers:
    no run comes near the 64-bit ceiling of rowids. *)

From Stdlib Require Import List ZArith NArith Lia Bool.
From Stdlib Require Import Permutation Sorted.
From Stdlib Require String Ascii DecimalString DecimalNat.
Import ListNotations.
Import String.StringSyntax.
Delimit Scope string_scope with string.

Set Implicit Arguments.

(* ------------------------------------------------------------------ *)
(** ** Python strings *)

Module PyStr.

(** A character is its Unicode code point. *)
Definition char := N.
Definition str := list char.

(** ASCII literals of the source. *)
Fixpoint of_string (s : String.string) : str :=
  match s with
  | String.EmptyString => []
  | String.String a s' => Ascii.N_of_ascii a :: of_string s'
  end.

Definition in_range (c : char) (r : N * N) : bool :=
  (fst r <=? c)%N && (c <=? snd r)%N.

Definition in_ranges (rs : list (N * N)) (c : char) : bool :=
  existsb (in_range c) rs.

(** [str.isspace] on one character: the table behind [split()] and
    [strip()] without arguments. *)
Definition whitespace_ranges : list (N * N) :=
  [(0x9, 0xd); (0x1c, 0x20); (0x85, 0x85); (0xa0, 0xa0);
   (0x1680, 0x1680); (0x2000, 0x200a); (0x2028, 0x2029);
   (0x202f, 0x202f); (0x205f, 0x205f); (0x3000, 0x3000)]%N.

Definition isspace (c : char) : bool := in_ranges whitespace_ranges c.

(** Characters with a decimal value (category Nd, Unicode 14.0 as shipped
    with CPython 3.11).  Every run starts at a zero digit and holds whole
    groups of ten consecutive digits. *)
Definition decimal_ranges : list (N * N) :=
  [(0x30, 0x39); (0x660, 0x669); (0x6f0, 0x6f9); (0x7c0, 0x7c9);
   (0x966, 0x96f); (0x9e6, 0x9ef); (0xa66, 0xa6f); (0xae6, 0xaef);
   (0xb66, 0xb6f); (0xbe6, 0xbef); (0xc66, 0xc6f); (0xce6, 0xcef);
   (0xd66, 0xd6f); (0xde6, 0xdef); (0xe50, 0xe59); (0xed0, 0xed9);
   (0xf20, 0xf29); (0x1040, 0x1049); (0x1090, 0x1099); (0x17e0, 0x17e9);
   (0x1810, 0x1819); (0x1946, 0x194f); (0x19d0, 0x19d9); (0x1a80, 0x1a89);
   (0x1a90, 0x1a99); (0x1b50, 0x1b59); (0x1bb0, 0x1bb9); (0x1c40, 0x1c49);
   (0x1c50, 0x1c59); (0xa620, 0xa629); (0xa8d0, 0xa8d9); (0xa900, 0xa909);
   (0xa9d0, 0xa9d9); (0xa9f0, 0xa9f9); (0xaa50, 0xaa59); (0xabf0, 0xabf9);
   (0xff10, 0xff19); (0x104a0, 0x104a9); (0x10d30, 0x10d39);
   (0x11066, 0x1106f); (0x110f0, 0x110f9); (0x11136, 0x1113f);
   (0x111d0, 0x111d9); (0x112f0, 0x112f9); (0x11450, 0x11459);
   (0x114d0, 0x114d9); (0x11650, 0x11659); (0x116c0, 0x116c9);
   (0x11730, 0x11739); (0x118e0, 0x118e9); (0x11950, 0x11959);
   (0x11c50, 0x11c59); (0x11d50, 0x11d59); (0x11da0, 0x11da9);
   (0x16a60, 0x16a69); (0x16ac0, 0x16ac9); (0x16b50, 0x16b59);
   (0x1d7ce, 0x1d7ff); (0x1e140, 0x1e149); (0x1e2f0, 0x1e2f9);
   (0x1e950, 0x1e959); (0x1fbf0, 0x1fbf9)]%N.

(** Characters that have a digit value but no decimal value: superscripts,
    subscripts, circled and dingbat digits and the like. *)
Definition digit_only_ranges : list (N * N) :=
  [(0xb2, 0xb3); (0xb9, 0xb9); (0x1369, 0x1371); (0x19da, 0x19da);
   (0x2070, 0x2070); (0x2074, 0x2079); (0x2080, 0x2089); (0x2460, 0x2468);
   (0x2474, 0x247c); (0x2488, 0x2490); (0x24ea, 0x24ea); (0x24f5, 0x24fd);
   (0x24ff, 0x24ff); (0x2776, 0x277e); (0x2780, 0x2788); (0x278a, 0x2792);
   (0x10a40, 0x10a43); (0x10e60, 0x10e68); (0x11052, 0x1105a);
   (0x1f100, 0x1f10a)]%N.

(** The decimal value [int()] gives a character, when it has one. *)
Definition decimal_value (c : char) : option N :=
  match find (in_range c) decimal_ranges with
  | Some (lo, _) => Some ((c - lo) mod 10)%N
  | None => None
  end.

Definition isdecimal_char (c : char) : bool :=
  match decimal_value c with Some _ => true | None => false end.

Definition isdigit_char (c : char) : bool :=
  isdecimal_char c || in_ranges digit_only_ranges c.

(** [s.isdigit()]: at least one character, and digits only. *)
Definition isdigit (s : str) : bool :=
  match s with
  | [] => false
  | _ :: _ => forallb isdigit_char s
  end.

(** [s.startswith(prefix)]. *)
Fixpoint startswith (s prefix : str) : bool :=
  match prefix, s with
  | [], _ => true
  | _ :: _, [] => false
  | p :: prefix', c :: s' => (p =? c)%N && startswith s' prefix'
  end.

Fixpoint lstrip (s : str) : str :=
  match s with
  | [] => []
  | c :: s' => if isspace c then lstrip s' else s
  end.

Definition rstrip (s : str) : str := rev (lstrip (rev s)).

(** [s.strip()]. *)
Definition strip (s : str) : str := rstrip (lstrip s).

Definition flush (word : str) : list str :=
  match word with
  | [] => []
  | _ :: _ => [word]
  end.

Fixpoint split_from (word : str) (s : str) : list str :=
  match s with
  | [] => flush word
  | c :: s' =>
      if isspace c then flush word ++ split_from [] s'
      else split_from (word ++ [c]) s'
  end.

(** [s.split()]: the maximal runs of non-whitespace characters. *)
Definition split (s : str) : list str := split_from [] s.

(** [s[n:]] for [n >= 0]. *)
Definition slice_from (n : nat) (s : str) : str := skipn n s.

(** [str(n)] for a length. *)
Definition of_nat (n : nat) : str :=
  of_string (DecimalString.NilEmpty.string_of_uint (Nat.to_uint n)).

Definition is_empty (s : str) : bool :=
  match s with [] => true | _ :: _ => false end.

End PyStr.
Import PyStr.

(* ------------------------------------------------------------------ *)
(** ** Exceptions *)

(** The sqlite3 calls of one handler, in the order the code makes them. *)
Inductive Stage := AtConnect | AtExecute | AtFetch | AtCommit.

Inductive exn :=
| ValueError
| DatabaseError (at_stage : Stage)
| CollaboratorError (detail : str)
| GatewayError (detail : str).

Inductive result (A : Type) :=
| Ok (a : A)
| Raise (e : exn).
Arguments Ok {A} a.
Arguments Raise {A} e.

(** [int(s)] for an argument that passed [s.isdigit()]: every character is
    translated to its decimal value; one without a decimal value makes the
    literal invalid.  (The conversion limit on literals of several thousand
    digits is beyond what the gateway delivers in one message.) *)
Fixpoint int_digits (acc : Z) (s : str) : result Z :=
  match s with
  | [] => Ok acc
  | c :: s' =>
      match decimal_value c with
      | Some d => int_digits (10 * acc + Z.of_N d) s'
      | None => Raise ValueError
      end
  end.

Definition py_int (s : str) : result Z := int_digits 0 s.

(* ------------------------------------------------------------------ *)
(** ** Data model *)

(** A gateway user: [==] compares ids, [str()] gives the display string. *)
Record User := {
  user_id : Z;
  user_name : str;
  user_str : str
}.

Definition user_eqb (a b : User) : bool := (user_id a =? user_id b)%Z.

Record Message := {
  author : User;
  content : str
}.

Inductive Colour := Purple | Blue | Green.

Record Embed := {
  embed_title : str;
  embed_description : str;
  embed_colour : Colour;
  embed_fields : list (str * str);
  embed_footer : option str
}.

Inductive Response :=
| Text (s : str)
| Rich (e : Embed).

(** One record of the table [logs]. *)
Record Row := {
  id : Z;
  timestamp : str;
  user : str;
  message : str
}.

(** The persisted state: the table in storage order and the counter that
    AUTOINCREMENT keeps in [sqlite_sequence]. *)
Record DB := {
  logs : list Row;
  sqlite_sequence : Z
}.

Definition empty_db : DB := {| logs := []; sqlite_sequence := 0 |}.

(** How startup ends: with the table in place, or with [exit()]. *)
Inductive Startup :=
| Started (d : DB)
| Exited.

(** [CREATE TABLE IF NOT EXISTS logs]: an existing table is kept, a missing
    one is created empty.  When [connect], [execute] or [commit] raises,
    the [except] branch logs the failure and calls [exit()]. *)
Definition initialize_database (fault : option Stage) (file : option DB)
  : Startup :=
  match fault with
  | Some AtConnect | Some AtExecute | Some AtCommit => Exited
  | Some AtFetch | None =>
      Started (match file with
               | Some d => d
               | None => empty_db
               end)
  end.

Inductive Sql :=
| InsertLog (ts usr msg : str)
| SelectRecent (limit : Z).

(** What a handler does that the outside can see, in order. *)
Inductive action :=
| Send (r : Response)
| Execute (q : Sql).

(** What the surroundings supply while one event is handled. *)
Record Env := {
  client_user : User;
  (** [client.latency * 1000] printed with two decimals *)
  latency_ms : str;
  (** [datetime.utcnow().isoformat()] *)
  utcnow_isoformat : str;
  (** [datetime.fromisoformat(ts).strftime('%Y-%m-%d %H:%M:%S UTC')];
      [None] when [fromisoformat] rejects the text *)
  reformat_time : str -> option str;
  (** the sqlite3 call that raises, if the handler gets to it *)
  sqlite_fault : option Stage;
  (** the responses on which [channel.send] raises, with the exception's
      text; no handler sends the same response twice in one event *)
  send_raises : Response -> option str;
  (** [ORACLE_API_URL] of the configuration *)
  oracle_api_url : str;
  (** fetching a page and evaluating [page_title], or the exception text *)
  fetch_page_title : str -> result str;
  (** the oracle's [timezone], [current_datetime], [current_timestamp_utc] *)
  fetch_time : str -> result (str * str * str)
}.

(* ------------------------------------------------------------------ *)
(** ** The table [logs] *)

Definition max_rowid (rows : list Row) : Z :=
  fold_right (fun r m => Z.max (id r) m) 0%Z rows.

(** AUTOINCREMENT: one more than the largest id the table ever held. *)
Definition next_rowid (d : DB) : Z :=
  (Z.max (max_rowid (logs d)) (sqlite_sequence d) + 1)%Z.

(** [INSERT INTO logs (timestamp, user, message) VALUES (?, ?, ?)]. *)
Definition insert_row (ts usr msg : str) (d : DB) : DB :=
  let i := next_rowid d in
  {| logs := logs d ++ [{| id := i; timestamp := ts; user := usr; message := msg |}];
     sqlite_sequence := i |}.

Fixpoint insert_desc (r : Row) (rows : list Row) : list Row :=
  match rows with
  | [] => [r]
  | x :: rows' =>
      if (id x <=? id r)%Z then r :: rows else x :: insert_desc r rows'
  end.

(** [ORDER BY id DESC]. *)
Definition order_by_id_desc (rows : list Row) : list Row :=
  fold_right insert_desc [] rows.

(** [LIMIT ?]: a negative bound means no bound. *)
Definition sql_limit (n : Z) (rows : list Row) : list Row :=
  if (n <? 0)%Z then rows else firstn (Z.to_nat n) rows.

Definition columns (r : Row) : str * str * str :=
  (timestamp r, user r, message r).

(** [SELECT timestamp, user, message FROM logs ORDER BY id DESC LIMIT ?]. *)
Definition select_recent (limit : Z) (rows : list Row) : list (str * str * str) :=
  map columns (sql_limit limit (order_by_id_desc rows)).

(** The recall read: the selected rows as [reversed(rows)] walks them. *)
Definition recentN (n : Z) (rows : list Row) : list (str * str * str) :=
  rev (select_recent n rows).

(* ------------------------------------------------------------------ *)
(** ** The handler monad *)

Definition M (A : Type) : Type := DB -> result A * DB * list action.

Definition ret {A} (a : A) : M A := fun d => (Ok a, d, []).

Definition raise {A} (e : exn) : M A := fun d => (Raise e, d, []).

Definition bind {A B} (m : M A) (k : A -> M B) : M B :=
  fun d =>
    match m d with
    | (Ok a, d1, t1) => let '(r, d2, t2) := k a d1 in (r, d2, t1 ++ t2)
    | (Raise e, d1, t1) => (Raise e, d1, t1)
    end.

(** [try: m except Exception as e: h e]. *)
Definition try_except {A} (m : M A) (h : exn -> M A) : M A :=
  fun d =>
    match m d with
    | (Ok a, d1, t1) => (Ok a, d1, t1)
    | (Raise e, d1, t1) => let '(r, d2, t2) := h e d1 in (r, d2, t1 ++ t2)
    end.

Definition lift {A} (r : result A) : M A := fun d => (r, d, []).

Notation "x <- m ;; k" := (bind m (fun x => k))
  (at level 61, m at next level, right associativity).
Notation "m ;; k" := (bind m (fun _ => k))
  (at level 61, right associativity).

(** [await message.channel.send(...)]: the response goes out, or the call
    raises and nothing goes out. *)
Definition send (env : Env) (r : Response) : M unit :=
  fun d =>
    match send_raises env r with
    | Some detail => (Raise (GatewayError detail), d, [])
    | None => (Ok tt, d, [Send r])
    end.

Fixpoint for_each {A B} (f : A -> M B) (l : list A) : M (list B) :=
  match l with
  | [] => ret []
  | a :: l' => b <- f a ;; bs <- for_each f l' ;; ret (b :: bs)
  end.

Definition responses (t : list action) : list Response :=
  flat_map (fun a => match a with Send r => [r] | Execute _ => [] end) t.

Definition statements (t : list action) : list Sql :=
  flat_map (fun a => match a with Send _ => [] | Execute q => [q] end) t.

(* ------------------------------------------------------------------ *)
(** ** sqlite3 calls *)

Definition fails_at (env : Env) (s : Stage) : bool :=
  match sqlite_fault env, s with
  | Some AtConnect, AtConnect | Some AtExecute, AtExecute
  | Some AtFetch, AtFetch | Some AtCommit, AtCommit => true
  | _, _ => false
  end.

(** [sqlite3.connect(DB_FILE)]. *)
Definition sqlite3_connect (env : Env) : M unit :=
  if fails_at env AtConnect then raise (DatabaseError AtConnect) else ret tt.

(** [cursor.execute("INSERT ...", (ts, usr, msg))]: the new row lives in the
    open transaction, which the result carries, until [commit]. *)
Definition execute_insert (env : Env) (ts usr msg : str) : M DB :=
  fun d =>
    (if fails_at env AtExecute then Raise (DatabaseError AtExecute)
     else Ok (insert_row ts usr msg d),
     d, [Execute (InsertLog ts usr msg)]).

(** [conn.commit()]: the transaction becomes the persisted state.  When it
    raises, the connection is dropped and the transaction rolled back. *)
Definition commit (env : Env) (transaction : DB) : M unit :=
  fun d =>
    if fails_at env AtCommit then (Raise (DatabaseError AtCommit), d, [])
    else (Ok tt, transaction, []).

(** [cursor.execute("SELECT ... LIMIT ?", (limit,))]: the cursor holds the
    result set. *)
Definition execute_select (env : Env) (limit : Z) : M (list (str * str * str)) :=
  fun d =>
    (if fails_at env AtExecute then Raise (DatabaseError AtExecute)
     else Ok (select_recent limit (logs d)),
     d, [Execute (SelectRecent limit)]).

(** [cursor.fetchall()]. *)
Definition fetchall (env : Env) (cursor : list (str * str * str))
  : M (list (str * str * str)) :=
  if fails_at env AtFetch then raise (DatabaseError AtFetch) else ret cursor.

(** [conn.close()]. *)
Definition conn_close : M unit := ret tt.

(* ------------------------------------------------------------------ *)
(** ** Response texts *)

Definition lit := of_string.
Arguments lit _%_string.

Definition tick : str := [0x60%N].
Definition fence : str := [0x60; 0x60; 0x60]%N.

Definition pong (latency : str) : str :=
  lit "Pong! System latency is " ++ latency ++ lit "ms.".

Definition chronicle_empty : str := lit "The Chronicle is empty.".

Definition recall_failed : str :=
  0x274c%N :: lit " Error: Could not recall entries from the Chronicle.".

Definition log_usage : str :=
  lit "Error: No message provided. Usage: " ++ tick
    ++ lit "!log <your message>" ++ tick.

Definition entry_recorded : str :=
  0x2705%N :: lit " Entry recorded in the Chronicle.".

Definition record_failed : str :=
  0x274c%N :: lit " Error: Could not record entry in the Chronicle.".

Definition scrape_usage : str :=
  lit "Error: No URL provided. Usage: " ++ tick ++ lit "!scrape <URL>" ++ tick.

Definition time_usage : str :=
  lit "Error: No timezone provided. Usage: " ++ tick
    ++ lit "!time <Timezone>" ++ tick.

(** The texts and reports of the scrape and time handlers. *)
Definition scrape_progress (url : str) : str :=
  lit "Beginning reconnaissance on " ++ tick ++ url ++ tick ++ lit "...".

Definition scrape_report (url page_title name : str) : Embed :=
  {| embed_title := lit "Reconnaissance Report";
     embed_description := lit "Target: " ++ tick ++ url ++ tick;
     embed_colour := Blue;
     embed_fields := [(lit "Page Title", fence ++ page_title ++ fence)];
     embed_footer := Some (lit "Report generated by Echo for " ++ name) |}.

Definition time_progress (timezone : str) : str :=
  lit "Querying the Oracle for timezone " ++ tick ++ timezone ++ tick
    ++ lit "...".

Definition time_report (data : str * str * str) (name : str) : Embed :=
  let '(tz, current_datetime, current_timestamp_utc) := data in
  {| embed_title := lit "Oracle Time Service";
     embed_description := lit "Time information for " ++ tick ++ tz ++ tick;
     embed_colour := Green;
     embed_fields :=
       [(lit "Current Date & Time", tick ++ current_datetime ++ tick);
        (lit "UTC Timestamp", tick ++ current_timestamp_utc ++ tick)];
     embed_footer := Some (lit "Query performed by Echo for " ++ name) |}.

(** [f"{e}"]. *)
Definition exn_text (e : exn) : str :=
  match e with
  | ValueError => lit "invalid literal for int() with base 10"
  | DatabaseError _ => lit "database error"
  | CollaboratorError detail => detail
  | GatewayError detail => detail
  end.

Definition scrape_error (e : exn) : str :=
  lit "An error occurred during the scrape operation: "
    ++ tick ++ exn_text e ++ tick.

Definition time_error (e : exn) : str :=
  lit "An error occurred during the API query: " ++ tick ++ exn_text e ++ tick.

(* ------------------------------------------------------------------ *)
(** ** Command handlers *)

(** The report of a recall over [count] rows. *)
Definition recall_report (count : nat) (fields : list (str * str)) : Embed :=
  {| embed_title := lit "Chronicle Recall";
     embed_description :=
       lit "Displaying the last " ++ of_nat count ++ lit " entries.";
     embed_colour := Purple;
     embed_fields := fields;
     embed_footer := None |}.

Definition recall_field (env : Env) (row : str * str * str) : M (str * str) :=
  let '(timestamp, user, log_message) := row in
  match reformat_time env timestamp with
  | None => raise ValueError
  | Some formatted_time =>
      ret (lit "Logged by " ++ tick ++ user ++ tick ++ lit " at "
             ++ tick ++ formatted_time ++ tick,
           fence ++ log_message ++ fence)
  end.

(** The limit of a recall: 5 unless a second token passes [isdigit()], and
    never more than 20. *)
Definition recall_limit (text : str) : result Z :=
  let parts := split text in
  match (if (1 <? length parts)%nat && isdigit (nth 1 parts [])
         then py_int (nth 1 parts [])
         else Ok 5%Z) with
  | Ok limit => Ok (Z.min limit 20)
  | Raise e => Raise e
  end.

Definition handle_recall_command (env : Env) (message : Message) : M unit :=
  try_except
    (limit <- lift (recall_limit (content message)) ;;
     sqlite3_connect env ;;
     cursor <- execute_select env limit ;;
     rows <- fetchall env cursor ;;
     conn_close ;;
     if (length rows =? 0)%nat then send env (Text chronicle_empty)
     else
       fields <- for_each (recall_field env) (rev rows) ;;
       send env (Rich (recall_report (length rows) fields)))
    (fun e => send env (Text recall_failed)).

Definition handle_log_command (env : Env) (message : Message) : M unit :=
  let log_content := strip (slice_from 5 (content message)) in
  if is_empty log_content then send env (Text log_usage)
  else
    try_except
      (sqlite3_connect env ;;
       transaction <- execute_insert env (utcnow_isoformat env)
                        (user_str (author message)) log_content ;;
       commit env transaction ;;
       conn_close ;;
       send env (Text entry_recorded))
      (fun e => send env (Text record_failed)).

Definition handle_scrape_command (env : Env) (message : Message) : M unit :=
  let parts := split (content message) in
  if (length parts <? 2)%nat then send env (Text scrape_usage)
  else
    let url := nth 1 parts [] in
    try_except
      (send env (Text (scrape_progress url)) ;;
       page_title <- lift (fetch_page_title env url) ;;
       send env (Rich (scrape_report url page_title
                         (user_name (author message)))))
      (fun e => send env (Text (scrape_error e))).

Definition handle_time_command (env : Env) (message : Message) : M unit :=
  let parts := split (content message) in
  if (length parts <? 2)%nat then send env (Text time_usage)
  else
    let timezone := nth 1 parts [] in
    let api_endpoint := oracle_api_url env ++ lit "/api/time/" ++ timezone in
    try_except
      (send env (Text (time_progress timezone)) ;;
       data <- lift (fetch_time env api_endpoint) ;;
       send env (Rich (time_report data (user_name (author message)))))
      (fun e => send env (Text (time_error e))).

(* ------------------------------------------------------------------ *)
(** ** The dispatcher *)

Definition on_message (env : Env) (message : Message) : M unit :=
  if user_eqb (author message) (client_user env) then ret tt
  else if startswith (content message) (lit "!ping") then
    send env (Text (pong (latency_ms env)))
  else if startswith (content message) (lit "!scrape") then
    handle_scrape_command env message
  else if startswith (content message) (lit "!time") then
    handle_time_command env message
  else if startswith (content message) (lit "!log") then
    handle_log_command env message
  else if startswith (content message) (lit "!recall") then
    handle_recall_command env message
  else ret tt.

(** The classification of section 4.1 of the specification: the first
    matching prefix wins, in this order. *)
Inductive Command := Ping | Scrape | Time | Log | Recall | NoMatch.

Definition classify (text : str) : Command :=
  if startswith text (lit "!ping") then Ping
  else if startswith text (lit "!scrape") then Scrape
  else if startswith text (lit "!time") then Time
  else if startswith text (lit "!log") then Log
  else if startswith text (lit "!recall") then Recall
  else NoMatch.

(** The database after an event, and what the event made visible. *)
Definition db_after (env : Env) (message : Message) (d : DB) : DB :=
  snd (fst (on_message env message d)).

Definition trace_of (env : Env) (message : Message) (d : DB) : list action :=
  snd (on_message env message d).

(** A run of the dispatch loop over a stream of events. *)
Fixpoint run_events (events : list (Env * Message)) (d : DB) : DB :=
  match events with
  | [] => d
  | (env, message) :: events' => run_events events' (db_after env message d)
  end.

(** The Chronicle states the process can be in: the table as created at
    startup, and whatever handling one more event makes of a state. *)
Inductive reachable : DB -> Prop :=
| reachable_init fault d :
    initialize_database fault None = Started d -> reachable d
| reachable_event env message d :
    reachable d -> reachable (db_after env message d).

(* ------------------------------------------------------------------ *)
(** ** Vocabulary of the statements *)

(** The ids [k+1, ..., k+n], ascending. *)
Definition ids_from (k n : nat) : list Z := map Z.of_nat (seq (S k) n).

(** Descending by id, as [ORDER BY id DESC] leaves a table. *)
Definition newer_first (a b : Row) : Prop := (id b <= id a)%Z.
Definition strictly_newer_first (a b : Row) : Prop := (id b < id a)%Z.

(** The ids of the table are [1, ..., m] in storage order, and the
    AUTOINCREMENT counter stands at [m]. *)
Definition consecutive (d : DB) : Prop :=
  map id (logs d) = ids_from 0 (length (logs d))
  /\ max_rowid (logs d) = Z.of_nat (length (logs d))
  /\ sqlite_sequence d = Z.of_nat (length (logs d)).

(** The handler behind each command. *)
Definition dispatch (c : Command) (env : Env) (message : Message) : M unit :=
  match c with
  | Ping => send env (Text (pong (latency_ms env)))
  | Scrape => handle_scrape_command env message
  | Time => handle_time_command env message
  | Log => handle_log_command env message
  | Recall => handle_recall_command env message
  | NoMatch => ret tt
  end.

(** The text that [handle_log_command] stores. *)
Definition log_content (message : Message) : str :=
  strip (slice_from 5 (content message)).

(** Whether an event ends in a committed insert. *)
Definition commits_append (env : Env) (message : Message) : bool :=
  negb (user_eqb (author message) (client_user env))
  && match classify (content message) with Log => true | _ => false end
  && negb (is_empty (log_content message))
  && negb (fails_at env AtConnect)
  && negb (fails_at env AtExecute)
  && negb (fails_at env AtCommit).

Definition count_appends (events : list (Env * Message)) : nat :=
  length (filter (fun ev => commits_append (fst ev) (snd ev)) events).

(** How many responses an event of each kind is answered with. *)
Definition response_count (message : Message) : nat :=
  match classify (content message) with
  | NoMatch => 0
  | Ping | Log | Recall => 1
  | Scrape | Time =>
      if (length (split (content message)) <? 2)%nat then 1 else 2
  end.

(** A trace that went before an outcome. *)
Definition after (pre : list action) (out : result unit * DB * list action)
  : result unit * DB * list action :=
  let '(r, d, t) := out in (r, d, pre ++ t).

(** The gateway takes this response, or every response. *)
Definition accepts (env : Env) (r : Response) : Prop := send_raises env r = None.
Definition accepts_all (env : Env) : Prop := forall r, accepts env r.

(** A text made of whitespace only. *)
Definition blank (s : str) : bool := forallb isspace s.

(** A text that does not start with whitespace. *)
Definition no_lead (s : str) : Prop :=
  match s with
  | [] => True
  | c :: _ => isspace c = false
  end.

(** A text that [strip()] would keep as it is, and that is not empty. *)
Definition trimmed (s : str) : Prop := s <> [] /\ strip s = s.

(** A token as [split()] yields them. *)
Definition token_ok (w : str) : Prop := w <> [] /\ existsb isspace w = false.

(** The two answers by which the log handler reports on an append. *)
Definition log_verdict (r : Response) : Prop :=
  r = Text entry_recorded \/ r = Text record_failed.

(** What a committed log event stores: timestamp, user and message. *)
Definition entry_of (ev : Env * Message) : str * str * str :=
  (utcnow_isoformat (fst ev), user_str (author (snd ev)), log_content (snd ev)).

Definition committed (events : list (Env * Message)) : list (Env * Message) :=
  filter (fun ev => commits_append (fst ev) (snd ev)) events.

(** The sqlite3 calls a recall makes. *)
Definition read_fails (env : Env) : bool :=
  fails_at env AtConnect || fails_at env AtExecute || fails_at env AtFetch.

(** Concrete surroundings and events used to run the definitions. *)
Module Sample.

Definition echo : User :=
  {| user_id := 1; user_name := lit "Echo"; user_str := lit "Echo#0001" |}.

Definition bob : User :=
  {| user_id := 2; user_name := lit "bob"; user_str := lit "bob#1234" |}.

(** Keeps date and time of an ISO text of at least 19 characters. *)
Definition iso_to_display (ts : str) : option str :=
  if (length ts <? 19)%nat then None
  else Some (firstn 10 ts ++ lit " " ++ firstn 8 (skipn 11 ts) ++ lit " UTC").

Definition env_with (fault : option Stage) : Env :=
  {| client_user := echo;
     latency_ms := lit "42.00";
     utcnow_isoformat := lit "2024-05-17T09:30:00.123456";
     reformat_time := iso_to_display;
     sqlite_fault := fault;
     send_raises := fun _ => None;
     oracle_api_url := lit "http://oracle.local";
     fetch_page_title := fun _ => Ok (lit "Example Domain");
     fetch_time := fun _ => Raise (CollaboratorError (lit "timed out")) |}.

Definition env : Env := env_with None.

(** Surroundings in which the gateway refuses the confirmation of a log
    event, as on a passing network failure, and takes everything else. *)
Definition env_confirmation_lost : Env :=
  {| client_user := echo;
     latency_ms := lit "42.00";
     utcnow_isoformat := lit "2024-05-17T09:30:00.123456";
     reformat_time := iso_to_display;
     sqlite_fault := None;
     send_raises := fun r =>
       match r with
       | Text (c :: _) =>
           if (c =? 0x2705)%N then Some (lit "503 Service Unavailable")
           else None
       | _ => None
       end;
     oracle_api_url := lit "http://oracle.local";
     fetch_page_title := fun _ => Ok (lit "Example Domain");
     fetch_time := fun _ => Raise (CollaboratorError (lit "timed out")) |}.

(** Surroundings in which the gateway refuses every report (an embed). *)
Definition env_reports_refused : Env :=
  {| client_user := echo;
     latency_ms := lit "42.00";
     utcnow_isoformat := lit "2024-05-17T09:30:00.123456";
     reformat_time := iso_to_display;
     sqlite_fault := None;
     send_raises := fun r =>
       match r with
       | Rich _ => Some (lit "400 Bad Request")
       | Text _ => None
       end;
     oracle_api_url := lit "http://oracle.local";
     fetch_page_title := fun _ => Ok (lit "Example Domain");
     fetch_time := fun _ => Raise (CollaboratorError (lit "timed out")) |}.

Definition says (who : User) (text : str) : Message :=
  {| author := who; content := text |}.

Definition log_restart : Message := says bob (lit "!log Server restarted").
Definition log_blank : Message := says bob (lit "!log   ").
Definition recall_zero : Message := says bob (lit "!recall 0").
Definition recall_seven : Message := says bob (lit "!recall 7").
Definition recall_abc : Message := says bob (lit "!recall abc").
(** [!recall] followed by SUPERSCRIPT TWO. *)
Definition recall_superscript : Message :=
  says bob (lit "!recall " ++ [0xb2%N]).
Definition scrape_example : Message :=
  says bob (lit "!scrape http://example.com").
Definition own_log : Message := says echo (lit "!log talking to myself").

Definition one_entry : DB := db_after env log_restart empty_db.

(** A storage order other than the insertion order. *)
Definition shuffled (rows : list Row) : list Row :=
  match rows with
  | a :: rows' => rows' ++ [a]
  | [] => []
  end.

Definition three_entries : DB :=
  run_events [(env, says bob (lit "!log first"));
              (env, says bob (lit "!log second"));
              (env, says bob (lit "!log third"))] empty_db.

(** A table found at startup whose ids have gaps, as after deletions made
    with another tool: ids 3 and 7, counter at 9. *)
Definition with_gaps : DB :=
  {| logs := [{| id := 3; timestamp := lit "2023-01-01T00:00:00";
                 user := lit "ann#0001"; message := lit "old" |};
              {| id := 7; timestamp := lit "2023-01-02T00:00:00";
                 user := lit "ann#0001"; message := lit "older" |}];
     sqlite_sequence := 9 |}.

(** A table holding a row whose timestamp is no ISO text. *)
Definition with_bad_timestamp : DB :=
  {| logs := [{| id := 1; timestamp := lit "yesterday";
                 user := lit "ann#0001"; message := lit "note" |}];
     sqlite_sequence := 1 |}.

Definition log_padded : Message := says bob (lit "!log   spaced  out   ").
Definition recall_plain : Message := says bob (lit "!recall").
Definition ping : Message := says bob (lit "!ping").
Definition time_paris : Message := says bob (lit "!time  Europe/Paris  now").
Definition time_paris_short : Message := says bob (lit "!time Europe/Paris").

End Sample.

(* ------------------------------------------------------------------ *)
(** * Properties *)

(** ** Ordering of the table *)

Section Ordering.

Lemma insert_desc_perm r rows : Permutation (r :: rows) (insert_desc r rows).
Proof.
  induction rows as [|x rows IH]; simpl.
  - apply Permutation_refl.
  - destruct (id x <=? id r)%Z.
    + apply Permutation_refl.
    + eapply perm_trans; [apply perm_swap|].
      apply perm_skip, IH.
Qed.

Lemma order_by_id_desc_perm rows : Permutation rows (order_by_id_desc rows).
Proof.
  induction rows as [|r rows IH]; simpl.
  - apply perm_nil.
  - eapply perm_trans; [apply perm_skip, IH|].
    apply insert_desc_perm.
Qed.

Lemma insert_desc_sorted r rows :
  StronglySorted newer_first rows ->
  StronglySorted newer_first (insert_desc r rows).
Proof.
  induction rows as [|x rows IH]; intros Hs; simpl.
  - repeat constructor.
  - inversion Hs as [|? ? Hs' Hall]; subst.
    destruct (id x <=? id r)%Z eqn:E.
    + apply Z.leb_le in E.
      constructor; [assumption|].
      constructor; [exact E|].
      eapply Forall_impl; [|exact Hall].
      intros y Hy. unfold newer_first in *. lia.
    + apply Z.leb_gt in E.
      constructor; [apply IH; assumption|].
      eapply Permutation_Forall; [apply insert_desc_perm|].
      constructor; [unfold newer_first; lia | assumption].
Qed.

Lemma order_by_id_desc_sorted rows :
  StronglySorted newer_first (order_by_id_desc rows).
Proof.
  induction rows as [|r rows IH]; simpl.
  - constructor.
  - apply insert_desc_sorted, IH.
Qed.

(** A table with distinct ids has one descending arrangement. *)
Lemma descending_unique (l1 l2 : list Row) :
  StronglySorted newer_first l1 ->
  StronglySorted strictly_newer_first l2 ->
  Permutation l1 l2 ->
  l1 = l2.
Proof.
  revert l2.
  induction l1 as [|a l1 IH]; intros l2 H1 H2 HP.
  - apply Permutation_nil in HP. now subst.
  - destruct l2 as [|b l2].
    + apply Permutation_sym, Permutation_nil in HP. discriminate.
    + inversion H1 as [|? ? H1' A1]; subst.
      inversion H2 as [|? ? H2' A2]; subst.
      assert (a = b) as ->.
      { assert (In a (b :: l2)) as Ha
            by (eapply Permutation_in; [exact HP | now left]).
        assert (In b (a :: l1)) as Hb
            by (eapply Permutation_in;
                [apply Permutation_sym; exact HP | now left]).
        destruct Ha as [Ha|Ha]; [now subst|].
        destruct Hb as [Hb|Hb]; [now subst|].
        rewrite Forall_forall in A1, A2.
        specialize (A1 _ Hb). specialize (A2 _ Ha).
        unfold newer_first, strictly_newer_first in *. lia. }
      f_equal. apply IH; try assumption.
      eapply Permutation_cons_inv; exact HP.
Qed.

Lemma ascending_rev (entries : list Row) :
  StronglySorted Z.lt (map id entries) ->
  StronglySorted strictly_newer_first (rev entries).
Proof.
  induction entries as [|e entries IH]; simpl; intros Hs.
  - constructor.
  - inversion Hs as [|? ? Hs' Hall]; subst.
    specialize (IH Hs').
    assert (Forall (fun x => strictly_newer_first x e) (rev entries)) as Hall'.
    { rewrite Forall_forall in *. intros x Hx.
      apply in_rev in Hx. unfold strictly_newer_first.
      apply Hall, in_map, Hx. }
    clear Hs Hs' Hall.
    induction IH as [|x l Hl IHl Hx]; simpl.
    + repeat constructor.
    + inversion Hall'; subst.
      constructor; [apply IHl; assumption|].
      apply Forall_app; split; [assumption|].
      constructor; [assumption | constructor].
Qed.

(** [ORDER BY id DESC] undoes the storage order. *)
Lemma order_by_id_desc_rev (entries table : list Row) :
  StronglySorted Z.lt (map id entries) ->
  Permutation table entries ->
  order_by_id_desc table = rev entries.
Proof.
  intros Hs HP.
  apply descending_unique.
  - apply order_by_id_desc_sorted.
  - apply ascending_rev, Hs.
  - eapply perm_trans; [apply Permutation_sym, order_by_id_desc_perm|].
    eapply perm_trans; [exact HP | apply Permutation_rev].
Qed.

End Ordering.

Lemma recentN_ascending (entries table : list Row) (n : Z) :
  StronglySorted Z.lt (map id entries) ->
  Permutation table entries ->
  (0 <= n)%Z ->
  recentN n table
    = map columns (skipn (length entries - Z.to_nat n) entries).
Proof.
  intros Hs HP Hn.
  unfold recentN, select_recent, sql_limit.
  rewrite (order_by_id_desc_rev Hs HP).
  destruct (n <? 0)%Z eqn:En; [apply Z.ltb_lt in En; lia|].
  rewrite firstn_rev, <- map_rev, rev_involutive. reflexivity.
Qed.

(** C1. For every [n >= 0] and every Chronicle holding the appended entries
    [entries] (ids ascending in insertion order), whatever order [table]
    stores them in, the recall read returns the [n] most recently appended
    entries, oldest first and most recent last, all of them when there are
    fewer than [n], and never more than [n]. *)
Theorem recentN_most_recent_last (entries table : list Row) (n : Z) :
  StronglySorted Z.lt (map id entries) ->
  Permutation table entries ->
  (0 <= n)%Z ->
  recentN n table
    = map columns (skipn (length entries - Z.to_nat n) entries)
  /\ (Z.of_nat (length (recentN n table)) <= n)%Z
  /\ ((length entries <= Z.to_nat n)%nat ->
      recentN n table = map columns entries).
Proof.
  intros Hs HP Hn.
  pose proof (recentN_ascending Hs HP Hn) as E.
  split; [exact E|]. split.
  - rewrite E, length_map, length_skipn. lia.
  - intros Hle. rewrite E.
    replace (length entries - Z.to_nat n)%nat with 0%nat by lia.
    reflexivity.
Qed.

(* ------------------------------------------------------------------ *)
(** ** What each handler does to the database and the trace *)

Ltac run_handler :=
  cbv [try_except bind lift ret raise send conn_close after
       sqlite3_connect execute_insert execute_select fetchall commit].

(** A refused response contradicts a gateway that takes them all. *)
Ltac refuse :=
  match goal with
  | Ha : accepts_all ?e, H : send_raises ?e ?r = Some _ |- _ =>
      let Hx := fresh in
      pose proof (Ha r) as Hx; unfold accepts in Hx; congruence
  end.

Ltac on_sends :=
  repeat match goal with
         | |- context [send_raises ?e ?r] =>
             let E := fresh "Es" in destruct (send_raises e r) eqn:E
         end.

Ltac finish_run :=
  do 2 eexists; (split; [reflexivity|]);
  repeat match goal with |- _ /\ _ => split end;
  simpl; eauto 8;
  try (intros Ha; first [refuse | split; [reflexivity | discriminate]]).

Lemma send_accepted env r d :
  accepts env r -> send env r d = (Ok tt, d, [Send r]).
Proof. unfold accepts, send. now intros ->. Qed.

Lemma for_each_recall_field env rows d :
  exists r, for_each (recall_field env) rows d = (r, d, []).
Proof.
  induction rows as [|[[ts usr] msg] rows [r IH]].
  - eexists; reflexivity.
  - cbn [for_each]. unfold bind at 1. unfold recall_field at 1.
    destruct (reformat_time env ts).
    + unfold ret at 1. unfold bind at 1. rewrite IH.
      destruct r; eexists; reflexivity.
    + eexists; reflexivity.
Qed.

Lemma int_digits_nonneg s : forall acc v,
  (0 <= acc)%Z -> int_digits acc s = Ok v -> (0 <= v)%Z.
Proof.
  induction s as [|c s IH]; cbn [int_digits]; intros acc v Hacc H.
  - injection H as <-. exact Hacc.
  - destruct (decimal_value c) as [dv|]; [|discriminate].
    apply IH in H; [assumption | lia].
Qed.

Lemma recall_limit_range text n :
  recall_limit text = Ok n -> (0 <= n <= 20)%Z.
Proof.
  unfold recall_limit.
  destruct ((1 <? length (split text))%nat && isdigit (nth 1 (split text) [])).
  - unfold py_int.
    destruct (int_digits 0 (nth 1 (split text) [])) as [v|] eqn:E;
      [|discriminate].
    intros H; injection H as <-.
    apply int_digits_nonneg in E; lia.
  - intros H; injection H as <-. lia.
Qed.

(** A recall leaves the table alone and lets nothing but a failed send
    escape; it sends at most one response, and the only statement it may
    execute is the bounded select.  When the gateway takes every response,
    it returns and has answered. *)
Lemma handle_recall_command_run env message d :
  exists r t,
    handle_recall_command env message d = (r, d, t)
    /\ (r = Ok tt \/ exists detail, r = Raise (GatewayError detail))
    /\ (statements t = []
        \/ exists n, recall_limit (content message) = Ok n
                     /\ statements t = [SelectRecent n])
    /\ (responses t = []
        \/ responses t = [Text chronicle_empty]
        \/ responses t = [Text recall_failed]
        \/ exists e, responses t = [Rich e])
    /\ (accepts_all env -> r = Ok tt /\ responses t <> []).
Proof.
  unfold handle_recall_command. run_handler.
  destruct (recall_limit (content message)) as [n|e] eqn:El.
  2:{ on_sends; finish_run. }
  destruct (fails_at env AtConnect); [on_sends; finish_run|].
  destruct (fails_at env AtExecute); [on_sends; finish_run|].
  destruct (fails_at env AtFetch); [on_sends; finish_run|].
  destruct (length (select_recent n (logs d)) =? 0)%nat;
    [on_sends; finish_run|].
  destruct (for_each_recall_field env (rev (select_recent n (logs d))) d)
    as [r Hr].
  rewrite Hr. destruct r; on_sends; finish_run.
Qed.

(** The scrape handler when the gateway takes every response. *)
Lemma handle_scrape_command_accepted env message d :
  accepts_all env ->
  handle_scrape_command env message d
  = if (length (split (content message)) <? 2)%nat
    then (Ok tt, d, [Send (Text scrape_usage)])
    else
      let url := nth 1 (split (content message)) [] in
      (Ok tt, d,
       [Send (Text (scrape_progress url));
        Send (match fetch_page_title env url with
              | Ok page_title =>
                  Rich (scrape_report url page_title
                          (user_name (author message)))
              | Raise e => Text (scrape_error e)
              end)]).
Proof.
  intros Ha. unfold accepts_all, accepts in Ha. unfold handle_scrape_command.
  destruct (length (split (content message)) <? 2)%nat; run_handler.
  - now rewrite Ha.
  - rewrite Ha. destruct (fetch_page_title env _); now rewrite Ha.
Qed.

Lemma handle_scrape_command_run env message d :
  exists r t,
    handle_scrape_command env message d = (r, d, t)
    /\ (r = Ok tt \/ exists detail, r = Raise (GatewayError detail))
    /\ statements t = []
    /\ (length (responses t)
        <= if (length (split (content message)) <? 2)%nat then 1 else 2)%nat.
Proof.
  unfold handle_scrape_command.
  destruct (length (split (content message)) <? 2)%nat; run_handler.
  - on_sends; finish_run.
  - destruct (send_raises env (Text (scrape_progress _))).
    + on_sends; finish_run.
    + destruct (fetch_page_title env _); on_sends; finish_run.
Qed.

(** The time handler when the gateway takes every response. *)
Lemma handle_time_command_accepted env message d :
  accepts_all env ->
  handle_time_command env message d
  = if (length (split (content message)) <? 2)%nat
    then (Ok tt, d, [Send (Text time_usage)])
    else
      let timezone := nth 1 (split (content message)) [] in
      (Ok tt, d,
       [Send (Text (time_progress timezone));
        Send (match fetch_time env
                      (oracle_api_url env ++ lit "/api/time/" ++ timezone) with
              | Ok data => Rich (time_report data (user_name (author message)))
              | Raise e => Text (time_error e)
              end)]).
Proof.
  intros Ha. unfold accepts_all, accepts in Ha. unfold handle_time_command.
  destruct (length (split (content message)) <? 2)%nat; run_handler.
  - now rewrite Ha.
  - rewrite Ha. destruct (fetch_time env _); now rewrite Ha.
Qed.

Lemma handle_time_command_run env message d :
  exists r t,
    handle_time_command env message d = (r, d, t)
    /\ (r = Ok tt \/ exists detail, r = Raise (GatewayError detail))
    /\ statements t = []
    /\ (length (responses t)
        <= if (length (split (content message)) <? 2)%nat then 1 else 2)%nat.
Proof.
  unfold handle_time_command.
  destruct (length (split (content message)) <? 2)%nat; run_handler.
  - on_sends; finish_run.
  - destruct (send_raises env (Text (time_progress _))).
    + on_sends; finish_run.
    + destruct (fetch_time env _); on_sends; finish_run.
Qed.

(** The outcomes of a log event.  The last case is the committed insert:
    when the confirmation cannot be sent, the [except] branch reports a
    failure although the row is stored. *)
Lemma handle_log_command_run env message d :
  let entry := InsertLog (utcnow_isoformat env) (user_str (author message))
                 (log_content message) in
  let stored := insert_row (utcnow_isoformat env) (user_str (author message))
                  (log_content message) d in
  handle_log_command env message d =
    if is_empty (log_content message) then
      send env (Text log_usage) d
    else if fails_at env AtConnect then
      send env (Text record_failed) d
    else if fails_at env AtExecute || fails_at env AtCommit then
      after [Execute entry] (send env (Text record_failed) d)
    else
      match send_raises env (Text entry_recorded) with
      | None => (Ok tt, stored, [Execute entry; Send (Text entry_recorded)])
      | Some _ => after [Execute entry] (send env (Text record_failed) stored)
      end.
Proof.
  unfold handle_log_command, log_content.
  destruct (is_empty _); [reflexivity|].
  run_handler.
  destruct (fails_at env AtConnect); [on_sends; reflexivity|].
  destruct (fails_at env AtExecute); [on_sends; reflexivity|].
  destruct (fails_at env AtCommit); on_sends; reflexivity.
Qed.

Lemma on_message_dispatch env message :
  user_eqb (author message) (client_user env) = false ->
  on_message env message = dispatch (classify (content message)) env message.
Proof.
  intros H. unfold on_message, classify. rewrite H.
  repeat match goal with
         | |- context [if startswith ?s ?p then _ else _] =>
             destruct (startswith s p); [reflexivity|]
         end.
  reflexivity.
Qed.

Lemma on_message_self env message d :
  user_eqb (author message) (client_user env) = true ->
  on_message env message d = (Ok tt, d, []).
Proof. intros H. unfold on_message. now rewrite H. Qed.

Ltac on_log_cases :=
  rewrite handle_log_command_run; cbv zeta; unfold send, after;
  repeat match goal with
         | |- context [if ?b then _ else _] => destruct b
         end;
  on_sends.

(** An event changes the table only by a committed insert. *)
Lemma db_after_cases env message d :
  db_after env message d =
    if commits_append env message
    then insert_row (utcnow_isoformat env) (user_str (author message))
           (log_content message) d
    else d.
Proof.
  unfold db_after, commits_append.
  destruct (user_eqb (author message) (client_user env)) eqn:Eu.
  - now rewrite on_message_self.
  - rewrite on_message_dispatch by assumption. cbn [negb andb].
    destruct (classify (content message)); cbn [dispatch andb].
    + unfold send. now destruct (send_raises env _).
    + destruct (handle_scrape_command_run env message d) as (r & t & -> & _).
      reflexivity.
    + destruct (handle_time_command_run env message d) as (r & t & -> & _).
      reflexivity.
    + rewrite handle_log_command_run. cbv zeta. unfold send, after.
      destruct (is_empty _); cbn [negb andb];
        [now destruct (send_raises env _)|].
      destruct (fails_at env AtConnect); cbn [negb andb];
        [now destruct (send_raises env _)|].
      destruct (fails_at env AtExecute); cbn [negb andb orb];
        [now destruct (send_raises env _)|].
      destruct (fails_at env AtCommit); cbn [negb andb]; on_sends;
        reflexivity.
    + destruct (handle_recall_command_run env message d) as (r & t & -> & _).
      reflexivity.
    + reflexivity.
Qed.

(** Nothing but a failed send leaves the dispatcher, and with a gateway
    that takes every response nothing does. *)
Lemma on_message_result env message d :
  (fst (fst (on_message env message d)) = Ok tt
   \/ exists detail,
        fst (fst (on_message env message d)) = Raise (GatewayError detail))
  /\ (accepts_all env -> fst (fst (on_message env message d)) = Ok tt).
Proof.
  destruct (user_eqb (author message) (client_user env)) eqn:Eu.
  { rewrite on_message_self by assumption. auto. }
  rewrite on_message_dispatch by assumption.
  destruct (classify (content message)); cbn [dispatch].
  - unfold send. on_sends; simpl; split; eauto; intros Ha; refuse.
  - split.
    + destruct (handle_scrape_command_run env message d)
        as (r & t & -> & Hr & _). exact Hr.
    + intros Ha. rewrite handle_scrape_command_accepted by assumption.
      now destruct (_ <? _)%nat.
  - split.
    + destruct (handle_time_command_run env message d)
        as (r & t & -> & Hr & _). exact Hr.
    + intros Ha. rewrite handle_time_command_accepted by assumption.
      now destruct (_ <? _)%nat.
  - on_log_cases; simpl; split; eauto; intros Ha; refuse.
  - destruct (handle_recall_command_run env message d)
      as (r & t & -> & Hr & _ & _ & Ha).
    split; [exact Hr | intros H; now apply Ha].
  - simpl. auto.
Qed.
(* ------------------------------------------------------------------ *)
(** ** Ids *)

Lemma ids_from_S k n : ids_from k (S n) = ids_from k n ++ [Z.of_nat (S k + n)].
Proof. unfold ids_from. now rewrite seq_S, map_app. Qed.

Lemma ids_from_cons k n :
  ids_from k (S n) = Z.of_nat (S k) :: ids_from (S k) n.
Proof. reflexivity. Qed.

Lemma ids_from_sorted n : forall k, StronglySorted Z.lt (ids_from k n).
Proof.
  induction n as [|n IH]; intros k.
  - constructor.
  - rewrite ids_from_cons. constructor; [apply IH|].
    unfold ids_from. rewrite Forall_forall. intros x Hx.
    apply in_map_iff in Hx. destruct Hx as (y & <- & Hy).
    apply in_seq in Hy. lia.
Qed.

Lemma max_rowid_app rows r :
  max_rowid (rows ++ [r]) = Z.max (max_rowid rows) (Z.max (id r) 0).
Proof.
  induction rows as [|x rows IH]; simpl.
  - lia.
  - rewrite IH. lia.
Qed.

Lemma consecutive_empty : consecutive empty_db.
Proof. repeat split. Qed.

Lemma next_rowid_consecutive d :
  consecutive d -> next_rowid d = Z.of_nat (S (length (logs d))).
Proof. intros (_ & Hm & Hq). unfold next_rowid. rewrite Hm, Hq. lia. Qed.

Lemma insert_row_consecutive ts usr msg d :
  consecutive d -> consecutive (insert_row ts usr msg d).
Proof.
  intros H. pose proof (next_rowid_consecutive H) as Hn.
  destruct H as (Hi & Hm & Hq).
  unfold consecutive, insert_row. simpl.
  rewrite length_app, map_app, max_rowid_app. simpl.
  rewrite Nat.add_1_r, ids_from_S, Hn, <- Hi, Hm.
  repeat split; f_equal; lia.
Qed.

Lemma db_after_consecutive env message d :
  consecutive d -> consecutive (db_after env message d).
Proof.
  intros H. rewrite db_after_cases.
  destruct (commits_append env message); [apply insert_row_consecutive|];
    assumption.
Qed.

(** A startup that does not exit on a missing file leaves the empty table. *)
Lemma initialize_database_fresh fault d :
  initialize_database fault None = Started d -> d = empty_db.
Proof.
  destruct fault as [[]|]; simpl; intros H; try discriminate;
    now injection H as <-.
Qed.

Lemma empty_db_reachable : reachable empty_db.
Proof. now apply (@reachable_init None empty_db). Qed.

Lemma reachable_consecutive d : reachable d -> consecutive d.
Proof.
  induction 1 as [fault d H|env message d _ IH].
  - apply initialize_database_fresh in H. subst d. apply consecutive_empty.
  - apply db_after_consecutive, IH.
Qed.

(** The loop only ever extends the table, by one row per committed insert,
    numbered onwards from the count it started with. *)
Lemma run_events_extends events : forall d,
  consecutive d ->
  exists new_entries,
    logs (run_events events d) = logs d ++ new_entries
    /\ length new_entries = count_appends events
    /\ map id new_entries = ids_from (length (logs d)) (count_appends events)
    /\ consecutive (run_events events d).
Proof.
  induction events as [|[env message] events IH]; intros d Hd.
  - exists []. rewrite app_nil_r. cbn [run_events]. auto.
  - cbn [run_events].
    pose proof (db_after_consecutive env message Hd) as Hd1.
    unfold count_appends in *. cbn [filter fst snd].
    rewrite db_after_cases in Hd1 |- *.
    destruct (commits_append env message).
    + destruct (IH _ Hd1) as (new' & Hl & Hlen & Hids & Hc).
      exists ({| id := next_rowid d;
                 timestamp := utcnow_isoformat env;
                 user := user_str (author message);
                 message := log_content message |} :: new').
      cbn [insert_row logs] in Hl, Hids.
      rewrite length_app, Nat.add_1_r in Hids.
      rewrite Hl, <- app_assoc. cbn [length map id].
      rewrite Hlen, ids_from_cons, Hids, (next_rowid_consecutive Hd).
      auto.
    + destruct (IH _ Hd1) as (new' & Hl & Hlen & Hids & Hc).
      exists new'. auto.
Qed.

Lemma consecutive_sorted d :
  consecutive d -> StronglySorted Z.lt (map id (logs d)).
Proof. intros (-> & _). apply ids_from_sorted. Qed.

(** C2. Starting from a reachable Chronicle with [k] entries, a stream of
    events of which [N] are append calls that commit adds exactly [N]
    entries, whose ids are [k+1, ..., k+N] in the order of the calls, without
    duplicate or gap; and in the state reached (as in every reachable state)
    ids increase strictly in insertion order. *)
Theorem append_ids_consecutive (d : DB) (events : list (Env * Message)) :
  reachable d ->
  exists new_entries,
    logs (run_events events d) = logs d ++ new_entries
    /\ length new_entries = count_appends events
    /\ map id new_entries = ids_from (length (logs d)) (count_appends events)
    /\ NoDup (map id new_entries)
    /\ StronglySorted Z.lt (map id (logs (run_events events d))).
Proof.
  intros Hr. apply reachable_consecutive in Hr.
  destruct (run_events_extends events Hr) as (new & Hl & Hlen & Hids & Hc).
  exists new. repeat (split; [assumption|]). split.
  - rewrite Hids. unfold ids_from.
    apply Finite.Injective_map_NoDup; [intros x y; lia | apply seq_NoDup].
  - apply consecutive_sorted, Hc.
Qed.

Lemma append_ids_consecutive_witness :
  exists new_entries,
    logs Sample.three_entries = logs empty_db ++ new_entries
    /\ length new_entries = 3%nat
    /\ map id new_entries = [1; 2; 3]%Z
    /\ NoDup (map id new_entries)
    /\ StronglySorted Z.lt (map id (logs Sample.three_entries)).
Proof.
  exact (append_ids_consecutive
           [(Sample.env, Sample.says Sample.bob (lit "!log first"));
            (Sample.env, Sample.says Sample.bob (lit "!log second"));
            (Sample.env, Sample.says Sample.bob (lit "!log third"))]
           empty_db_reachable).
Defined.


(* ------------------------------------------------------------------ *)
(** ** The log handler *)


(** What holds of an append whatever fails: the confirmation is sent only
    with the row stored; and unless it is the confirmation itself that
    cannot be sent, a reported failure leaves the Chronicle as it was. *)
Lemma append_outcomes env message d :
  is_empty (log_content message) = false ->
  exists r d' t,
    handle_log_command env message d = (r, d', t)
    /\ (responses t = [Text entry_recorded]
        \/ responses t = [Text record_failed]
        \/ responses t = [])
    /\ (responses t = [Text entry_recorded] ->
        d' = insert_row (utcnow_isoformat env) (user_str (author message))
               (log_content message) d)
    /\ (accepts env (Text entry_recorded) ->
        responses t <> [Text entry_recorded] -> d' = d).
Proof.
  intros Hne. rewrite handle_log_command_run, Hne. cbv zeta.
  unfold send, after, accepts.
  destruct (fails_at env AtConnect);
    [|destruct (fails_at env AtExecute || fails_at env AtCommit)];
    on_sends; do 3 eexists; (split; [reflexivity|]); simpl;
    repeat split; auto; try discriminate; try congruence.
Qed.



(** C8. A log event whose content is empty once trimmed does nothing but
    send the usage error: no statement is executed and the Chronicle is
    unchanged, whatever the store and the gateway do; and the gateway
    taking the usage error, that is the one response. *)
Theorem blank_log_is_usage_error (env : Env) (message : Message) (d : DB) :
  log_content message = [] ->
  handle_log_command env message d = send env (Text log_usage) d
  /\ statements (snd (handle_log_command env message d)) = []
  /\ snd (fst (handle_log_command env message d)) = d
  /\ (accepts env (Text log_usage) ->
      handle_log_command env message d = (Ok tt, d, [Send (Text log_usage)])).
Proof.
  intros He. rewrite handle_log_command_run, He. cbn [is_empty].
  unfold send, accepts.
  destruct (send_raises env (Text log_usage)); repeat split; congruence.
Qed.

Lemma blank_log_is_usage_error_witness :
  log_content Sample.log_blank = []
  /\ handle_log_command Sample.env Sample.log_blank Sample.one_entry
     = send Sample.env (Text log_usage) Sample.one_entry
  /\ statements (snd (handle_log_command Sample.env Sample.log_blank
                        Sample.one_entry)) = []
  /\ snd (fst (handle_log_command Sample.env Sample.log_blank
                 Sample.one_entry)) = Sample.one_entry
  /\ (accepts Sample.env (Text log_usage) ->
      handle_log_command Sample.env Sample.log_blank Sample.one_entry
      = (Ok tt, Sample.one_entry, [Send (Text log_usage)])).
Proof.
  split; [reflexivity|].
  apply (blank_log_is_usage_error Sample.env Sample.log_blank Sample.one_entry).
  reflexivity.
Defined.

(* ------------------------------------------------------------------ *)
(** ** The dispatcher *)

(** C4. An event written by the bot itself gets no response and reaches no
    handler: nothing is sent, nothing is executed, the Chronicle stays as it
    is, whatever the text. *)
Theorem own_events_are_ignored (env : Env) (message : Message) (d : DB) :
  user_eqb (author message) (client_user env) = true ->
  on_message env message d = (Ok tt, d, []).
Proof. apply on_message_self. Qed.

Lemma own_events_are_ignored_witness :
  on_message Sample.env Sample.own_log Sample.one_entry
  = (Ok tt, Sample.one_entry, []).
Proof.
  apply (own_events_are_ignored Sample.env Sample.own_log Sample.one_entry).
  reflexivity.
Defined.

Lemma trace_of_dispatch env message d :
  user_eqb (author message) (client_user env) = false ->
  trace_of env message d
  = snd (dispatch (classify (content message)) env message d).
Proof. intros H. unfold trace_of. now rewrite on_message_dispatch. Qed.

Lemma one_of_four (l : list Response) (a b : Response) :
  l = [] \/ l = [a] \/ l = [b] \/ (exists e, l = [Rich e]) ->
  (length l <= 1)%nat.
Proof. intros [-> | [-> | [-> | (e & ->)]]]; simpl; lia. Qed.

(** C5, as the code has it.  An event of another author runs exactly the
    handler of its command and is never answered more often than this:
    once for ping, log and recall and for a scrape or time without
    argument, twice for a scrape or time with an argument, not at all for
    an unmatched text.  When the gateway takes every response, these
    numbers are reached, and the two answers to a scrape or time with an
    argument are the progress notice naming the argument, then the report
    or else the error text. *)
Theorem responses_per_event (env : Env) (message : Message) (d : DB) :
  user_eqb (author message) (client_user env) = false ->
  on_message env message = dispatch (classify (content message)) env message
  /\ (length (responses (trace_of env message d)) <= response_count message)%nat
  /\ (accepts_all env ->
      length (responses (trace_of env message d)) = response_count message
      /\ match classify (content message) with
         | Ping =>
             responses (trace_of env message d)
             = [Text (pong (latency_ms env))]
         | Scrape =>
             (length (split (content message)) <? 2)%nat = false ->
             responses (trace_of env message d)
             = [Text (scrape_progress (nth 1 (split (content message)) []));
                match fetch_page_title env
                        (nth 1 (split (content message)) []) with
                | Ok page_title =>
                    Rich (scrape_report (nth 1 (split (content message)) [])
                            page_title (user_name (author message)))
                | Raise e => Text (scrape_error e)
                end]
         | Time =>
             (length (split (content message)) <? 2)%nat = false ->
             responses (trace_of env message d)
             = [Text (time_progress (nth 1 (split (content message)) []));
                match fetch_time env
                        (oracle_api_url env ++ lit "/api/time/"
                           ++ nth 1 (split (content message)) []) with
                | Ok data =>
                    Rich (time_report data (user_name (author message)))
                | Raise e => Text (time_error e)
                end]
         | Log =>
             responses (trace_of env message d) = [Text log_usage]
             \/ responses (trace_of env message d) = [Text entry_recorded]
             \/ responses (trace_of env message d) = [Text record_failed]
         | Recall =>
             responses (trace_of env message d) = [Text chronicle_empty]
             \/ responses (trace_of env message d) = [Text recall_failed]
             \/ exists e, responses (trace_of env message d) = [Rich e]
         | NoMatch => responses (trace_of env message d) = []
         end).
Proof.
  intros H. split; [apply on_message_dispatch, H|].
  rewrite trace_of_dispatch by assumption. unfold response_count.
  destruct (classify (content message)); cbn [dispatch].
  - unfold send. on_sends; simpl; (split; [lia|]); intros Ha;
      first [refuse | auto].
  - split.
    + destruct (handle_scrape_command_run env message d)
        as (r & t & -> & _ & _ & Hn). exact Hn.
    + intros Ha. rewrite handle_scrape_command_accepted by assumption.
      destruct (length (split (content message)) <? 2)%nat; simpl;
        (split; [reflexivity|]); [discriminate | reflexivity].
  - split.
    + destruct (handle_time_command_run env message d)
        as (r & t & -> & _ & _ & Hn). exact Hn.
    + intros Ha. rewrite handle_time_command_accepted by assumption.
      destruct (length (split (content message)) <? 2)%nat; simpl;
        (split; [reflexivity|]); [discriminate | reflexivity].
  - on_log_cases; simpl; (split; [lia|]); intros Ha;
      first [refuse | auto].
  - destruct (handle_recall_command_run env message d)
      as (r & t & -> & _ & _ & Hs & Ha). cbn [snd].
    split; [eapply one_of_four, Hs|].
    intros Hall. destruct (Ha Hall) as [_ Hne].
    destruct Hs as [Hs | [Hs | [Hs | (e & Hs)]]]; rewrite Hs in *;
      [congruence | ..]; split; eauto.
  - simpl. auto.
Qed.

Lemma sample_env_accepts_all : accepts_all Sample.env.
Proof. intros r. reflexivity. Qed.

Lemma responses_per_event_witness :
  on_message Sample.env Sample.scrape_example
  = dispatch (classify (content Sample.scrape_example)) Sample.env
      Sample.scrape_example
  /\ (length (responses (trace_of Sample.env Sample.scrape_example empty_db))
      <= 2)%nat
  /\ (accepts_all Sample.env ->
      length (responses (trace_of Sample.env Sample.scrape_example empty_db))
      = 2%nat
      /\ ((length (split (content Sample.scrape_example)) <? 2)%nat = false ->
          responses (trace_of Sample.env Sample.scrape_example empty_db)
          = [Text (scrape_progress (lit "http://example.com"));
             Rich (scrape_report (lit "http://example.com")
                     (lit "Example Domain") (lit "bob"))])).
Proof.
  apply (responses_per_event Sample.env Sample.scrape_example empty_db).
  reflexivity.
Defined.

(** C5 as stated fails: a scrape with a URL, from another author and
    classified as a command, is answered twice. *)
Lemma one_response_per_event_counterexample :
  user_eqb (author Sample.scrape_example) (client_user Sample.env) = false
  /\ classify (content Sample.scrape_example) = Scrape
  /\ length (responses (trace_of Sample.env Sample.scrape_example empty_db))
     <> 1%nat.
Proof. repeat split. vm_compute. discriminate. Qed.
(* ------------------------------------------------------------------ *)
(** ** The recall handler *)

(** Whatever an event executes is the insert of its own entry or a select
    with the limit computed from its text. *)
Lemma executed_statements env message d q :
  In q (statements (trace_of env message d)) ->
  q = InsertLog (utcnow_isoformat env) (user_str (author message))
        (log_content message)
  \/ exists n, q = SelectRecent n /\ recall_limit (content message) = Ok n.
Proof.
  destruct (user_eqb (author message) (client_user env)) eqn:Eu.
  { unfold trace_of. rewrite on_message_self by assumption. intros []. }
  rewrite trace_of_dispatch by assumption.
  destruct (classify (content message)); cbn [dispatch].
  - unfold send. on_sends; intros [].
  - destruct (handle_scrape_command_run env message d)
      as (r & t & -> & _ & Hs & _).
    cbn [snd]. rewrite Hs. intros [].
  - destruct (handle_time_command_run env message d)
      as (r & t & -> & _ & Hs & _).
    cbn [snd]. rewrite Hs. intros [].
  - on_log_cases; simpl; intuition.
  - destruct (handle_recall_command_run env message d)
      as (r & t & -> & _ & [Hs | (n & Hn & Hs)] & _); cbn [snd]; rewrite Hs.
    + intros [].
    + intros [<- | []]. right. eauto.
  - intros [].
Qed.

(** C6, as the code has it.  Every limit that an event passes to the store
    read lies in the range 0 to 20: the handler caps the limit at 20 and
    has no lower clamp. *)
Theorem recall_limit_at_most_20 (env : Env) (message : Message) (d : DB)
    (n : Z) :
  In (SelectRecent n) (statements (trace_of env message d)) ->
  (0 <= n <= 20)%Z.
Proof.
  intros H. apply executed_statements in H.
  destruct H as [H | (n' & H & Hl)]; [discriminate|].
  injection H as ->. eapply recall_limit_range, Hl.
Qed.

Lemma recall_limit_at_most_20_witness :
  In (SelectRecent 7)
    (statements (trace_of Sample.env Sample.recall_seven Sample.three_entries))
  /\ (0 <= 7 <= 20)%Z.
Proof.
  assert (In (SelectRecent 7)
            (statements (trace_of Sample.env Sample.recall_seven
                           Sample.three_entries))) as H
      by (vm_compute; left; reflexivity).
  split; [exact H|].
  exact (recall_limit_at_most_20 Sample.env Sample.recall_seven
           Sample.three_entries 7 H).
Defined.

(** C6 as stated fails: [!recall 0] passes the limit 0 to the store read. *)
Lemma recall_limit_at_least_1_counterexample :
  ~ (forall n,
        In (SelectRecent n)
          (statements (trace_of Sample.env Sample.recall_zero
                         Sample.three_entries)) ->
        (1 <= n <= 20)%Z).
Proof.
  intros H. specialize (H 0%Z).
  assert (1 <= 0 <= 20)%Z as Habs; [|lia].
  apply H. vm_compute. left. reflexivity.
Qed.

(** When the second token is missing or does not pass [isdigit()], the
    limit is 5. *)
Lemma recall_limit_default text :
  (1 <? length (split text))%nat && isdigit (nth 1 (split text) []) = false ->
  recall_limit text = Ok 5%Z.
Proof. intros H. unfold recall_limit. now rewrite H. Qed.

Lemma int_digits_decimal s : forall acc,
  forallb isdecimal_char s = true -> exists v, int_digits acc s = Ok v.
Proof.
  induction s as [|c s IH]; cbn [int_digits forallb]; intros acc H.
  - eauto.
  - apply andb_prop in H. destruct H as [Hc Hs].
    unfold isdecimal_char in Hc.
    destruct (decimal_value c); [apply IH, Hs | discriminate].
Qed.

(** When the second token is made of decimal digits, the limit is its
    value, capped at 20. *)
Lemma recall_limit_decimal text token :
  nth_error (split text) 1 = Some token ->
  token <> [] ->
  forallb isdecimal_char token = true ->
  exists v, py_int token = Ok v /\ recall_limit text = Ok (Z.min v 20).
Proof.
  intros Hn Hne Hd.
  destruct (int_digits_decimal token 0 Hd) as [v Hv]. exists v. split; [exact Hv|].
  unfold recall_limit.
  assert (1 < length (split text))%nat as Hlen
      by (apply nth_error_Some; congruence).
  apply Nat.ltb_lt in Hlen. rewrite Hlen.
  erewrite nth_error_nth by exact Hn.
  assert (isdigit token = true) as ->.
  { destruct token as [|c token]; [congruence|].
    unfold isdigit. rewrite forallb_forall in *.
    intros x Hx. unfold isdigit_char. now rewrite (Hd x Hx). }
  cbn [andb]. unfold py_int in *. now rewrite Hv.
Qed.

(** C7 at the input where the code departs from it.  SUPERSCRIPT TWO passes
    [isdigit()] and is no decimal digit: [int()] raises, and all the recall
    does is send the store-failure message, without any read, whatever the
    surroundings and the Chronicle. *)
Theorem recall_superscript_digit_fails (env : Env) (d : DB) :
  isdigit [0xb2%N] = true
  /\ forallb isdecimal_char [0xb2%N] = false
  /\ py_int [0xb2%N] = Raise ValueError
  /\ recall_limit (content Sample.recall_superscript) = Raise ValueError
  /\ handle_recall_command env Sample.recall_superscript d
     = send env (Text recall_failed) d
  /\ handle_recall_command env Sample.recall_superscript d
     = match send_raises env (Text recall_failed) with
       | Some detail => (Raise (GatewayError detail), d, [])
       | None => (Ok tt, d, [Send (Text recall_failed)])
       end.
Proof.
  assert (handle_recall_command env Sample.recall_superscript d
          = send env (Text recall_failed) d) as E.
  { unfold handle_recall_command. run_handler.
    change (recall_limit (content Sample.recall_superscript))
      with (@Raise Z ValueError).
    cbv beta iota. now destruct (send_raises env _). }
  repeat split; try reflexivity; exact E.
Qed.

(** C10. A recall whose second token is the digit 0 asks the store for 0
    rows and gets none, however many entries the Chronicle holds; the
    Chronicle is never changed; and as long as no sqlite3 call raises and
    the gateway takes the answer, the answer is that the Chronicle is
    empty. *)
Theorem recall_zero_reports_empty (env : Env) (message : Message) (d : DB) :
  nth_error (split (content message)) 1 = Some (lit "0") ->
  recall_limit (content message) = Ok 0%Z
  /\ select_recent 0 (logs d) = []
  /\ (exists r t,
        handle_recall_command env message d = (r, d, t)
        /\ (statements t = [] \/ statements t = [SelectRecent 0])
        /\ (accepts_all env -> r = Ok tt))
  /\ (sqlite_fault env = None ->
      accepts env (Text chronicle_empty) ->
      handle_recall_command env message d
      = (Ok tt, d, [Execute (SelectRecent 0); Send (Text chronicle_empty)])).
Proof.
  intros Hn.
  assert (select_recent 0 (logs d) = []) as Hsel by reflexivity.
  destruct (@recall_limit_decimal (content message) (lit "0") Hn)
    as (v & Hv & Hl); [discriminate | reflexivity |].
  vm_compute in Hv. injection Hv as <-.
  change (Z.min 0 20) with 0%Z in Hl.
  split; [exact Hl|]. split; [exact Hsel|]. split.
  - destruct (handle_recall_command_run env message d)
      as (r & t & Ht & _ & [Hs | (n & Hn' & Hs)] & _ & Ha); exists r, t.
    + split; [exact Ht|]. split; [auto | intros H; now apply Ha].
    + rewrite Hl in Hn'. injection Hn' as <-.
      split; [exact Ht|]. split; [auto | intros H; now apply Ha].
  - intros Hf Hacc. unfold handle_recall_command. run_handler. rewrite Hl.
    unfold fails_at. rewrite Hf, Hsel. unfold accepts in Hacc.
    cbn [length Nat.eqb]. now rewrite Hacc.
Qed.

Lemma recall_zero_reports_empty_witness :
  nth_error (split (content Sample.recall_zero)) 1 = Some (lit "0")
  /\ recall_limit (content Sample.recall_zero) = Ok 0%Z
  /\ select_recent 0 (logs Sample.three_entries) = []
  /\ (exists r t,
        handle_recall_command Sample.env Sample.recall_zero
          Sample.three_entries = (r, Sample.three_entries, t)
        /\ (statements t = [] \/ statements t = [SelectRecent 0])
        /\ (accepts_all Sample.env -> r = Ok tt))
  /\ (sqlite_fault Sample.env = None ->
      accepts Sample.env (Text chronicle_empty) ->
      handle_recall_command Sample.env Sample.recall_zero Sample.three_entries
      = (Ok tt, Sample.three_entries,
         [Execute (SelectRecent 0); Send (Text chronicle_empty)])).
Proof.
  split; [reflexivity|].
  apply (recall_zero_reports_empty Sample.env Sample.recall_zero
           Sample.three_entries).
  reflexivity.
Defined.

(* ------------------------------------------------------------------ *)
(** ** Reading back what was appended *)

Lemma recentN_most_recent_last_witness :
  recentN 2 (Sample.shuffled (logs Sample.three_entries))
    = map columns (skipn 1 (logs Sample.three_entries))
  /\ (Z.of_nat (length (recentN 2 (Sample.shuffled (logs Sample.three_entries))))
      <= 2)%Z
  /\ ((length (logs Sample.three_entries) <= Z.to_nat 2)%nat ->
      recentN 2 (Sample.shuffled (logs Sample.three_entries))
      = map columns (logs Sample.three_entries)).
Proof.
  apply (@recentN_most_recent_last (logs Sample.three_entries)
           (Sample.shuffled (logs Sample.three_entries)) 2).
  - vm_compute. repeat constructor.
  - simpl. apply Permutation_sym, Permutation_cons_append.
  - lia.
Defined.

(** The fields of a recall response are built from the recall read, in its
    order, with the stored author and message inserted as they are. *)
Lemma for_each_recall_field_ok env rows d :
  Forall (fun row => reformat_time env (fst (fst row)) <> None) rows ->
  exists fields,
    for_each (recall_field env) rows d = (Ok fields, d, [])
    /\ Forall2 (fun row field =>
                  exists shown,
                    reformat_time env (fst (fst row)) = Some shown
                    /\ field = (lit "Logged by " ++ tick ++ snd (fst row) ++ tick
                                  ++ lit " at " ++ tick ++ shown ++ tick,
                                fence ++ snd row ++ fence))
         rows fields.
Proof.
  induction 1 as [|[[ts usr] msg] rows Hrow _ (fields & IH & Hf)].
  - exists []. split; [reflexivity | constructor].
  - cbn [fst snd] in Hrow.
    destruct (reformat_time env ts) as [shown|] eqn:Et; [|congruence].
    eexists. split.
    + cbn [for_each]. unfold bind at 1. unfold recall_field at 1.
      rewrite Et. unfold ret at 1. unfold bind at 1. rewrite IH. reflexivity.
    + constructor; [|exact Hf]. exists shown. cbn [fst snd]. auto.
Qed.


(** C9. An entry appended with [(ts, usr, msg)] to a reachable Chronicle is
    read back with exactly these three values: whatever events follow,
    whenever the entry is still among the [n] most recent, the recall read
    holds it at its place, unaltered. *)
Theorem appended_entry_round_trip (d : DB) (ts usr msg : str)
    (events : list (Env * Message)) (n : Z) :
  reachable d ->
  (0 <= n)%Z ->
  (length (logs (run_events events (insert_row ts usr msg d)))
     - length (logs d) <= Z.to_nat n)%nat ->
  nth_error (recentN n (logs (run_events events (insert_row ts usr msg d))))
    (Nat.min (Z.to_nat n)
       (length (logs (run_events events (insert_row ts usr msg d))))
     - (length (logs (run_events events (insert_row ts usr msg d)))
        - length (logs d)))
  = Some (ts, usr, msg).
Proof.
  intros Hr Hn Hin. apply reachable_consecutive in Hr.
  pose proof (insert_row_consecutive ts usr msg Hr) as H1.
  destruct (run_events_extends events H1) as (new & Hl & _ & _ & Hc).
  apply consecutive_sorted in Hc.
  rewrite (recentN_ascending Hc (Permutation_refl _) Hn).
  set (d2 := run_events events (insert_row ts usr msg d)) in *.
  assert (length (logs d2) = S (length (logs d)) + length new)%nat as Hm.
  { rewrite Hl. cbn [insert_row logs]. rewrite !length_app. simpl. lia. }
  rewrite nth_error_map, nth_error_skipn.
  replace (length (logs d2) - Z.to_nat n
           + (Nat.min (Z.to_nat n) (length (logs d2))
              - (length (logs d2) - length (logs d))))%nat
    with (length (logs d)) by lia.
  rewrite Hl. cbn [insert_row logs].
  rewrite <- app_assoc, nth_error_app2 by lia.
  rewrite Nat.sub_diag. reflexivity.
Qed.

Lemma appended_entry_round_trip_witness :
  nth_error
    (recentN 2
       (logs (run_events [(Sample.env, Sample.log_restart)]
                (insert_row (lit "T") (lit "alice") (lit "hello")
                   Sample.one_entry))))
    0
  = Some (lit "T", lit "alice", lit "hello").
Proof.
  apply (@appended_entry_round_trip Sample.one_entry (lit "T") (lit "alice")
           (lit "hello") [(Sample.env, Sample.log_restart)] 2).
  - exact (reachable_event Sample.env Sample.log_restart empty_db_reachable).
  - lia.
  - vm_compute. lia.
Defined.

(* ------------------------------------------------------------------ *)
(** ** Concrete events *)

(** [!recall abc]: the default limit, not an error. *)
Example recall_abc_uses_default :
  recall_limit (content Sample.recall_abc) = Ok 5%Z.
Proof. reflexivity. Qed.

(** ARABIC-INDIC DIGIT THREE is a decimal digit: [int()] reads it as 3. *)
Example recall_arabic_indic_three :
  recall_limit (lit "!recall " ++ [0x663%N]) = Ok 3%Z.
Proof. reflexivity. Qed.

Example recall_caps_at_20 :
  recall_limit (lit "!recall 0500") = Ok 20%Z.
Proof. reflexivity. Qed.

(** [!log Server restarted] from bob: one insert, one confirmation, one new
    entry with the trimmed text. *)
Example log_restart_end_to_end :
  trace_of Sample.env Sample.log_restart empty_db
  = [Execute (InsertLog (utcnow_isoformat Sample.env) (lit "bob#1234")
                (lit "Server restarted"));
     Send (Text entry_recorded)]
  /\ map message (logs Sample.one_entry) = [lit "Server restarted"]
  /\ map id (logs Sample.one_entry) = [1%Z].
Proof. repeat split. Qed.

(** [!recall] on an empty Chronicle. *)
Example recall_on_empty_chronicle :
  on_message Sample.env (Sample.says Sample.bob (lit "!recall")) empty_db
  = (Ok tt, empty_db,
     [Execute (SelectRecent 5); Send (Text chronicle_empty)]).
Proof. reflexivity. Qed.

(** A recall of two out of three entries shows the second, then the third. *)
Example recall_two_of_three :
  map snd (recentN 2 (logs Sample.three_entries))
  = [lit "second"; lit "third"].
Proof. reflexivity. Qed.

(** A text that starts with no command prefix is passed over in silence. *)
Example unmatched_text_is_silent :
  on_message Sample.env (Sample.says Sample.bob (lit "hello !ping"))
    Sample.one_entry
  = (Ok tt, Sample.one_entry, []).
Proof. reflexivity. Qed.

(* ------------------------------------------------------------------ *)
(* ------------------------------------------------------------------ *)
(** * Further properties of the handlers *)

(** ** Trimming *)

Lemma lstrip_no_lead s : no_lead (lstrip s).
Proof.
  induction s as [|c s IH]; simpl; [exact I|].
  destruct (isspace c) eqn:E; [exact IH | exact E].
Qed.

Lemma lstrip_id s : no_lead s -> lstrip s = s.
Proof. destruct s as [|c s]; simpl; [reflexivity|]. now intros ->. Qed.

Lemma lstrip_split s : exists p, s = p ++ lstrip s /\ blank p = true.
Proof.
  induction s as [|c s (p & Hs & Hp)]; simpl.
  - exists []. split; reflexivity.
  - destruct (isspace c) eqn:E.
    + exists (c :: p). simpl. rewrite E, Hp. split; [now f_equal | reflexivity].
    + exists []. split; reflexivity.
Qed.

Lemma lstrip_nil s : lstrip s = [] <-> blank s = true.
Proof.
  induction s as [|c s IH]; simpl; [tauto|].
  destruct (isspace c); simpl; [exact IH|].
  split; discriminate.
Qed.

Lemma blank_rev s : blank (rev s) = blank s.
Proof.
  unfold blank. induction s as [|c s IH]; simpl; [reflexivity|].
  rewrite forallb_app, IH. simpl. destruct (isspace c), (forallb isspace s);
    reflexivity.
Qed.

Lemma rev_nil_iff (s : str) : rev s = [] <-> s = [].
Proof.
  split; intros H; [|now subst].
  apply (f_equal (@rev _)) in H. now rewrite rev_involutive in H.
Qed.

(** [strip()] leaves nothing exactly when the text is whitespace only. *)
Lemma strip_nil s : strip s = [] <-> blank s = true.
Proof.
  unfold strip, rstrip.
  rewrite rev_nil_iff, lstrip_nil, blank_rev.
  split; intros H.
  - apply lstrip_nil.
    pose proof (lstrip_no_lead s) as Hn.
    destruct (lstrip s) as [|c t]; [reflexivity|].
    simpl in Hn, H. rewrite Hn in H. discriminate.
  - apply lstrip_nil in H. now rewrite H.
Qed.

Lemma no_lead_app_l (u p : str) : u <> [] -> no_lead (u ++ p) -> no_lead u.
Proof. destruct u; [congruence | simpl; auto]. Qed.

(** What [strip()] returns starts and ends with no whitespace. *)
Lemma strip_no_lead_both s : no_lead (strip s) /\ no_lead (rev (strip s)).
Proof.
  unfold strip, rstrip. rewrite rev_involutive.
  split; [|apply lstrip_no_lead].
  destruct (lstrip_split (rev (lstrip s))) as (p & Hs & _).
  set (u := lstrip (rev (lstrip s))) in *.
  destruct (rev u) as [|c t] eqn:Eu; [exact I|].
  apply (@no_lead_app_l (c :: t) (rev p)); [discriminate|].
  rewrite <- Eu, <- rev_app_distr, <- Hs, rev_involutive.
  apply lstrip_no_lead.
Qed.

Lemma strip_fixed s : no_lead s -> no_lead (rev s) -> strip s = s.
Proof.
  intros H1 H2. unfold strip, rstrip.
  now rewrite (lstrip_id _ H1), (lstrip_id _ H2), rev_involutive.
Qed.

Lemma strip_idempotent s : strip (strip s) = strip s.
Proof. destruct (strip_no_lead_both s). now apply strip_fixed. Qed.

Lemma log_content_blank message :
  is_empty (log_content message) = true
  <-> blank (slice_from 5 (content message)) = true.
Proof.
  unfold log_content. rewrite <- strip_nil.
  destruct (strip _); simpl; split; congruence.
Qed.

(** X1. With a gateway that takes the usage error, the log handler answers
    with the usage error, and does nothing else, exactly when the text
    after its first five characters is empty or whitespace only. *)
Theorem log_usage_iff_blank (env : Env) (message : Message) (d : DB) :
  accepts env (Text log_usage) ->
  (handle_log_command env message d = (Ok tt, d, [Send (Text log_usage)])
   <-> blank (slice_from 5 (content message)) = true).
Proof.
  intros Ha. unfold accepts in Ha.
  rewrite <- log_content_blank, handle_log_command_run. cbv zeta.
  unfold send, after. rewrite Ha.
  destruct (is_empty (log_content message)); [tauto|].
  split; [|discriminate].
  destruct (fails_at env AtConnect);
    [|destruct (fails_at env AtExecute || fails_at env AtCommit)];
    on_sends; discriminate.
Qed.

Lemma log_usage_iff_blank_witness :
  handle_log_command Sample.env Sample.log_blank Sample.one_entry
  = (Ok tt, Sample.one_entry, [Send (Text log_usage)])
  <-> blank (slice_from 5 (content Sample.log_blank)) = true.
Proof.
  apply (@log_usage_iff_blank Sample.env Sample.log_blank Sample.one_entry).
  reflexivity.
Defined.

Lemma reachable_run_events events : forall d,
  reachable d -> reachable (run_events events d).
Proof.
  induction events as [|[env message] events IH]; intros d Hd; simpl.
  - exact Hd.
  - apply IH, reachable_event, Hd.
Qed.

Lemma three_entries_reachable : reachable Sample.three_entries.
Proof. apply reachable_run_events, empty_db_reachable. Qed.

(** X2. In every reachable Chronicle each stored message is non-empty and
    carries no whitespace at either end: it is what [strip()] left of the
    text of its log event. *)
Theorem stored_messages_are_trimmed (d : DB) :
  reachable d -> Forall (fun r => trimmed (message r)) (logs d).
Proof.
  induction 1 as [fault d H|env msg d _ IH];
    [apply initialize_database_fresh in H; subst d; constructor|].
  rewrite db_after_cases.
  destruct (commits_append env msg) eqn:Ec; [|exact IH].
  unfold insert_row. cbn [logs].
  apply Forall_app. split; [exact IH|].
  constructor; [|constructor]. cbn [message].
  unfold commits_append in Ec.
  repeat (apply andb_prop in Ec; destruct Ec as [Ec ?]).
  split.
  - destruct (log_content msg); [discriminate | congruence].
  - apply strip_idempotent.
Qed.

Lemma stored_messages_are_trimmed_witness :
  Forall (fun r => trimmed (message r)) (logs Sample.three_entries).
Proof.
  exact (stored_messages_are_trimmed three_entries_reachable).
Defined.

(* ------------------------------------------------------------------ *)
(** ** Tokens and prefixes *)

Lemma flush_ok word :
  existsb isspace word = false -> Forall token_ok (flush word).
Proof.
  intros H. destruct word as [|c word]; simpl; [constructor|].
  constructor; [|constructor]. split; [discriminate | exact H].
Qed.

Lemma split_from_ok s : forall word,
  existsb isspace word = false -> Forall token_ok (split_from word s).
Proof.
  induction s as [|c s IH]; intros word Hw; simpl.
  - apply flush_ok, Hw.
  - destruct (isspace c) eqn:E.
    + apply Forall_app. split; [apply flush_ok, Hw | now apply IH].
    + apply IH. rewrite existsb_app, Hw. simpl. now rewrite E.
Qed.

(** X3. Whatever the text, every token the handlers take from [split()]
    (the recall limit, the URL, the timezone) is non-empty and free of
    whitespace. *)
Theorem split_tokens_ok (text : str) (i : nat) (w : str) :
  nth_error (split text) i = Some w -> token_ok w.
Proof.
  intros H. apply nth_error_In in H.
  pose proof (@split_from_ok text [] eq_refl) as Hall.
  rewrite Forall_forall in Hall. now apply Hall.
Qed.

Lemma split_tokens_ok_witness :
  nth_error (split (content Sample.time_paris)) 1 = Some (lit "Europe/Paris")
  /\ token_ok (lit "Europe/Paris").
Proof.
  assert (nth_error (split (content Sample.time_paris)) 1
          = Some (lit "Europe/Paris")) as H by reflexivity.
  split; [exact H|].
  exact (@split_tokens_ok (content Sample.time_paris) 1 (lit "Europe/Paris") H).
Defined.

Lemma startswith_nth text : forall prefix i c,
  startswith text prefix = true ->
  nth_error prefix i = Some c ->
  nth_error text i = Some c.
Proof.
  induction text as [|t text IH]; intros [|p prefix] i c Hs Hn;
    try (destruct i; discriminate).
  cbn [startswith] in Hs. apply andb_prop in Hs. destruct Hs as [Hp Hs].
  apply N.eqb_eq in Hp. subst t.
  destruct i as [|i]; [exact Hn|].
  cbn [nth_error] in *. eapply IH; eassumption.
Qed.

(** No text starts with two of the command prefixes: their second
    characters differ. *)
Lemma prefixes_exclusive text p q a b :
  startswith text p = true ->
  startswith text q = true ->
  nth_error p 1 = Some a ->
  nth_error q 1 = Some b ->
  a = b.
Proof.
  intros Hp Hq Ha Hb.
  pose proof (@startswith_nth text p 1%nat a Hp Ha) as H1.
  pose proof (@startswith_nth text q 1%nat b Hq Hb) as H2.
  congruence.
Qed.

Ltac clash :=
  match goal with
  | Hp : startswith ?t ?p = true, Hq : startswith ?t ?q = true |- _ =>
      let H := fresh in
      pose proof (@prefixes_exclusive t p q _ _ Hp Hq eq_refl eq_refl) as H;
      discriminate H
  end.

(** X4. The order in which [on_message] tests the five prefixes does not
    matter: a text is routed to a command exactly when it starts with that
    command's prefix, and to none exactly when it starts with none. *)
Theorem classify_by_prefix (text : str) :
  (classify text = Ping <-> startswith text (lit "!ping") = true)
  /\ (classify text = Scrape <-> startswith text (lit "!scrape") = true)
  /\ (classify text = Time <-> startswith text (lit "!time") = true)
  /\ (classify text = Log <-> startswith text (lit "!log") = true)
  /\ (classify text = Recall <-> startswith text (lit "!recall") = true)
  /\ (classify text = NoMatch <->
      startswith text (lit "!ping") = false
      /\ startswith text (lit "!scrape") = false
      /\ startswith text (lit "!time") = false
      /\ startswith text (lit "!log") = false
      /\ startswith text (lit "!recall") = false).
Proof.
  unfold classify.
  destruct (startswith text (lit "!ping")) eqn:E1;
  destruct (startswith text (lit "!scrape")) eqn:E2;
  destruct (startswith text (lit "!time")) eqn:E3;
  destruct (startswith text (lit "!log")) eqn:E4;
  destruct (startswith text (lit "!recall")) eqn:E5;
  try clash;
  repeat split; intros; try reflexivity; try discriminate;
  repeat match goal with H : _ /\ _ |- _ => destruct H end;
  try discriminate.
Qed.

(* ------------------------------------------------------------------ *)
(** ** What an event does to the store, and what its answers mean *)

Lemma self_trace env message d :
  user_eqb (author message) (client_user env) = true ->
  trace_of env message d = [] /\ db_after env message d = d.
Proof.
  intros H. unfold trace_of, db_after. rewrite on_message_self by assumption.
  split; reflexivity.
Qed.

Lemma db_after_dispatch env message d :
  user_eqb (author message) (client_user env) = false ->
  db_after env message d
  = snd (fst (dispatch (classify (content message)) env message d)).
Proof. intros H. unfold db_after. now rewrite on_message_dispatch. Qed.

(** X5. Per event the store is touched at most once, and only by the log
    and recall commands: ping, scrape, time and unmatched texts execute no
    statement and leave the Chronicle as it is; a recall executes at most
    one select, with a limit between 0 and 20, and never writes; a log
    executes at most the one insert of its own entry. *)
Theorem store_access_per_event (env : Env) (message : Message) (d : DB) :
  match classify (content message) with
  | Log =>
      statements (trace_of env message d) = []
      \/ statements (trace_of env message d)
         = [InsertLog (utcnow_isoformat env) (user_str (author message))
              (log_content message)]
  | Recall =>
      db_after env message d = d
      /\ (statements (trace_of env message d) = []
          \/ exists n, (0 <= n <= 20)%Z
                       /\ statements (trace_of env message d) = [SelectRecent n])
  | Ping | Scrape | Time | NoMatch =>
      db_after env message d = d
      /\ statements (trace_of env message d) = []
  end.
Proof.
  destruct (user_eqb (author message) (client_user env)) eqn:Eu.
  { destruct (@self_trace env message d Eu) as [-> ->].
    destruct (classify (content message)); simpl; auto. }
  rewrite db_after_dispatch, trace_of_dispatch by assumption.
  destruct (classify (content message)); cbn [dispatch].
  - unfold send. on_sends; split; reflexivity.
  - destruct (handle_scrape_command_run env message d)
      as (r & t & -> & _ & Hs & _).
    split; [reflexivity | exact Hs].
  - destruct (handle_time_command_run env message d)
      as (r & t & -> & _ & Hs & _).
    split; [reflexivity | exact Hs].
  - on_log_cases; simpl; auto.
  - destruct (handle_recall_command_run env message d)
      as (r & t & -> & _ & [Hs | (n & Hn & Hs)] & _); cbn [fst snd].
    + auto.
    + split; [reflexivity|]. right. exists n.
      split; [eapply recall_limit_range, Hn | exact Hs].
  - split; reflexivity.
Qed.

Lemma in_responses r t : In (Send r) t -> In r (responses t).
Proof.
  intros H. unfold responses. apply in_flat_map.
  exists (Send r). split; [exact H | now left].
Qed.

Lemma not_verdict_by_head s c :
  hd_error s = Some c ->
  c <> 0x2705%N -> c <> 0x274c%N ->
  ~ log_verdict (Text s).
Proof.
  intros Hh H1 H2 [H|H]; injection H as ->; simpl in Hh; congruence.
Qed.

Lemma rich_not_verdict e : ~ log_verdict (Rich e).
Proof. intros [H|H]; discriminate. Qed.

Lemma recall_failed_not_verdict : ~ log_verdict (Text recall_failed).
Proof. intros [H|H]; vm_compute in H; discriminate. Qed.

Ltac ascii_head := eapply not_verdict_by_head; [reflexivity | discriminate ..].

Lemma handle_scrape_command_answers env message d :
  Forall (fun r => ~ log_verdict r)
    (responses (snd (handle_scrape_command env message d))).
Proof.
  unfold handle_scrape_command.
  destruct (length (split (content message)) <? 2)%nat; run_handler.
  - on_sends; simpl; repeat constructor; ascii_head.
  - destruct (send_raises env (Text (scrape_progress _))).
    + on_sends; simpl; repeat constructor; ascii_head.
    + destruct (fetch_page_title env _); on_sends; simpl; repeat constructor;
        try apply rich_not_verdict; ascii_head.
Qed.

Lemma handle_time_command_answers env message d :
  Forall (fun r => ~ log_verdict r)
    (responses (snd (handle_time_command env message d))).
Proof.
  unfold handle_time_command.
  destruct (length (split (content message)) <? 2)%nat; run_handler.
  - on_sends; simpl; repeat constructor; ascii_head.
  - destruct (send_raises env (Text (time_progress _))).
    + on_sends; simpl; repeat constructor; ascii_head.
    + destruct (fetch_time env _) as [[[tz dt] ts]|]; on_sends; simpl;
        repeat constructor; try apply rich_not_verdict; ascii_head.
Qed.

(** A recall gives one of three answers, or none. *)
Lemma handle_recall_command_answers env message d :
  responses (snd (handle_recall_command env message d)) = []
  \/ responses (snd (handle_recall_command env message d))
     = [Text chronicle_empty]
  \/ responses (snd (handle_recall_command env message d))
     = [Text recall_failed]
  \/ exists e,
       responses (snd (handle_recall_command env message d)) = [Rich e].
Proof.
  destruct (handle_recall_command_run env message d)
    as (r & t & -> & _ & _ & Hs & _).
  exact Hs.
Qed.

(** Only the log handler ever gives one of the two append verdicts. *)
Lemma verdict_only_from_log env message d r :
  In r (responses (trace_of env message d)) ->
  log_verdict r ->
  user_eqb (author message) (client_user env) = false
  /\ classify (content message) = Log.
Proof.
  intros Hin Hv.
  destruct (user_eqb (author message) (client_user env)) eqn:Eu.
  { destruct (@self_trace env message d Eu) as [Ht _]. rewrite Ht in Hin.
    destruct Hin. }
  split; [reflexivity|].
  rewrite trace_of_dispatch in Hin by assumption.
  destruct (classify (content message)); cbn [dispatch] in Hin;
    try reflexivity; exfalso.
  - unfold send in Hin. destruct (send_raises env _); [destruct Hin|].
    destruct Hin as [<- | []]. revert Hv. ascii_head.
  - pose proof (handle_scrape_command_answers env message d) as Hall.
    rewrite Forall_forall in Hall. exact (Hall _ Hin Hv).
  - pose proof (handle_time_command_answers env message d) as Hall.
    rewrite Forall_forall in Hall. exact (Hall _ Hin Hv).
  - destruct (handle_recall_command_answers env message d)
      as [H | [H | [H | (e & H)]]]; rewrite H in Hin;
      [destruct Hin | ..]; destruct Hin as [<- | []]; revert Hv.
    + ascii_head.
    + apply recall_failed_not_verdict.
    + apply rich_not_verdict.
  - destruct Hin.
Qed.

Lemma verdicts_differ : entry_recorded <> record_failed.
Proof. intros H. vm_compute in H. discriminate. Qed.

Lemma usage_not_verdict : ~ log_verdict (Text log_usage).
Proof. ascii_head. Qed.

(** Goes through the members of a concrete trace and drops the impossible
    ones. *)
Ltac sift_in :=
  repeat match goal with
         | H : False |- _ => destruct H
         | H : In _ [] |- _ => destruct H
         | H : In _ (_ :: _) |- _ => destruct H as [H|H]
         | H : Execute _ = Send _ |- _ => discriminate H
         | H : Send (Text ?a) = Send (Text ?b) |- _ =>
             first [ injection H as H; vm_compute in H; discriminate H
                   | clear H ]
         end.

(** X6. The confirmation is only ever sent for a committed append: if any
    event is answered with the entry-recorded text, the event was a log
    command of another author, its insert was executed first, and the
    Chronicle now ends with its entry. *)
Theorem confirmation_means_committed (env : Env) (message : Message) (d : DB) :
  In (Send (Text entry_recorded)) (trace_of env message d) ->
  classify (content message) = Log
  /\ trace_of env message d
     = [Execute (InsertLog (utcnow_isoformat env) (user_str (author message))
                   (log_content message));
        Send (Text entry_recorded)]
  /\ logs (db_after env message d)
     = logs d ++ [{| id := next_rowid d;
                     timestamp := utcnow_isoformat env;
                     user := user_str (author message);
                     message := log_content message |}].
Proof.
  intros Hin. pose proof (in_responses _ _ Hin) as Hr.
  destruct (@verdict_only_from_log env message d _ Hr) as [Eu Ec];
    [now left|].
  split; [exact Ec|]. clear Hr.
  rewrite db_after_dispatch by assumption.
  rewrite trace_of_dispatch in Hin |- * by assumption.
  rewrite Ec in *. cbn [dispatch] in *.
  revert Hin. on_log_cases; cbn [fst snd app]; intros Hin; sift_in;
    split; reflexivity.
Qed.

Lemma confirmation_means_committed_witness :
  classify (content Sample.log_padded) = Log
  /\ trace_of Sample.env Sample.log_padded Sample.with_gaps
     = [Execute (InsertLog (utcnow_isoformat Sample.env)
                   (user_str (author Sample.log_padded))
                   (log_content Sample.log_padded));
        Send (Text entry_recorded)]
  /\ logs (db_after Sample.env Sample.log_padded Sample.with_gaps)
     = logs Sample.with_gaps
         ++ [{| id := next_rowid Sample.with_gaps;
                timestamp := utcnow_isoformat Sample.env;
                user := user_str (author Sample.log_padded);
                message := log_content Sample.log_padded |}].
Proof.
  apply (confirmation_means_committed Sample.env Sample.log_padded
           Sample.with_gaps).
  vm_compute. right. left. reflexivity.
Defined.

(** X7. What the record-failed answer means: the event was a log command
    and got no other answer; the Chronicle is what it was before, unless
    it was the confirmation that could not be sent, in which case the entry
    is stored.  With a gateway that takes the confirmation the answer
    always means that nothing was stored. *)
Theorem failure_report_meaning (env : Env) (message : Message) (d : DB) :
  In (Send (Text record_failed)) (trace_of env message d) ->
  classify (content message) = Log
  /\ responses (trace_of env message d) = [Text record_failed]
  /\ (db_after env message d = d
      \/ (send_raises env (Text entry_recorded) <> None
          /\ db_after env message d
             = insert_row (utcnow_isoformat env) (user_str (author message))
                 (log_content message) d))
  /\ (accepts env (Text entry_recorded) -> db_after env message d = d).
Proof.
  intros Hin. pose proof (in_responses _ _ Hin) as Hr.
  destruct (@verdict_only_from_log env message d _ Hr) as [Eu Ec];
    [now right|].
  split; [exact Ec|]. clear Hr.
  rewrite db_after_dispatch by assumption.
  rewrite trace_of_dispatch in Hin |- * by assumption.
  rewrite Ec in *. cbn [dispatch] in *. unfold accepts.
  revert Hin. on_log_cases; cbn [fst snd app]; intros Hin; sift_in;
    repeat split; auto; try congruence;
    right; split; [congruence | reflexivity].
Qed.

Lemma failure_report_meaning_witness :
  classify (content Sample.log_restart) = Log
  /\ responses (trace_of Sample.env_confirmation_lost Sample.log_restart
                  Sample.one_entry) = [Text record_failed]
  /\ (db_after Sample.env_confirmation_lost Sample.log_restart
         Sample.one_entry = Sample.one_entry
      \/ (send_raises Sample.env_confirmation_lost (Text entry_recorded)
          <> None
          /\ db_after Sample.env_confirmation_lost Sample.log_restart
               Sample.one_entry
             = insert_row (utcnow_isoformat Sample.env_confirmation_lost)
                 (user_str (author Sample.log_restart))
                 (log_content Sample.log_restart) Sample.one_entry))
  /\ (accepts Sample.env_confirmation_lost (Text entry_recorded) ->
      db_after Sample.env_confirmation_lost Sample.log_restart
        Sample.one_entry = Sample.one_entry).
Proof.
  apply (failure_report_meaning Sample.env_confirmation_lost
           Sample.log_restart Sample.one_entry).
  vm_compute. right. left. reflexivity.
Defined.

(* ------------------------------------------------------------------ *)
(** ** Ids on a table found at startup *)

Lemma max_rowid_nonneg rows : (0 <= max_rowid rows)%Z.
Proof. induction rows as [|r rows IH]; simpl; lia. Qed.

Lemma max_rowid_bound rows : Forall (fun r => (id r <= max_rowid rows)%Z) rows.
Proof.
  induction rows as [|r rows IH]; simpl; constructor; [lia|].
  eapply Forall_impl; [|exact IH]. simpl. intros x Hx. lia.
Qed.

Lemma next_rowid_insert ts usr msg d :
  next_rowid (insert_row ts usr msg d) = (next_rowid d + 1)%Z.
Proof.
  unfold next_rowid at 1. unfold insert_row. cbn [logs sqlite_sequence].
  rewrite max_rowid_app. cbn [id].
  pose proof (max_rowid_nonneg (logs d)). unfold next_rowid. lia.
Qed.

Lemma ids_shift (a : Z) n :
  map (fun i => (a + 1 + Z.of_nat i)%Z) (seq 0 n)
  = map (fun i => (a + Z.of_nat i)%Z) (seq 1 n).
Proof.
  rewrite <- seq_shift, map_map. apply map_ext. intros i. lia.
Qed.

(** X8. AUTOINCREMENT on any table, also one found at startup with gaps in
    its ids: whatever events follow, the existing rows stay in place, one
    row is added per committed append, and the new rows get the ids
    [next, next+1, ...] where [next] exceeds every id already in the table;
    so no id is ever reused. *)
Theorem fresh_ids_on_any_table (events : list (Env * Message)) : forall d,
  exists new_entries,
    logs (run_events events d) = logs d ++ new_entries
    /\ map id new_entries
       = map (fun i => (next_rowid d + Z.of_nat i)%Z)
           (seq 0 (count_appends events))
    /\ Forall (fun r => (id r < next_rowid d)%Z) (logs d).
Proof.
  assert (forall d, Forall (fun r => (id r < next_rowid d)%Z) (logs d)) as Hold.
  { intros d. eapply Forall_impl; [|apply max_rowid_bound].
    simpl. intros r Hr. unfold next_rowid. lia. }
  induction events as [|[env message] events IH]; intros d.
  - exists []. rewrite app_nil_r. cbn [run_events]. auto.
  - cbn [run_events]. unfold count_appends in *. cbn [filter fst snd].
    rewrite db_after_cases.
    destruct (commits_append env message).
    + destruct (IH (insert_row (utcnow_isoformat env)
                      (user_str (author message)) (log_content message) d))
        as (new' & Hl & Hids & _).
      rewrite next_rowid_insert in Hids.
      exists ({| id := next_rowid d;
                 timestamp := utcnow_isoformat env;
                 user := user_str (author message);
                 message := log_content message |} :: new').
      cbn [insert_row logs] in Hl. rewrite Hl, <- app_assoc.
      cbn [length map id seq]. rewrite Hids, ids_shift, Z.add_0_r.
      auto.
    + destruct (IH d) as (new' & Hl & Hids & _). exists new'. auto.
Qed.


(* ------------------------------------------------------------------ *)
(** ** The recall read on its own *)

Lemma order_by_id_desc_length rows :
  length (order_by_id_desc rows) = length rows.
Proof. symmetry. apply Permutation_length, order_by_id_desc_perm. Qed.

Lemma in_firstn {A} (x : A) n l : In x (firstn n l) -> In x l.
Proof.
  intros H. rewrite <- (firstn_skipn n l). apply in_or_app. now left.
Qed.

(** X10. On any table, sorted or not, with distinct ids or not, the recall
    read with a limit [n >= 0] returns exactly [min n m] of the [m] rows,
    and each returned triple is the timestamp, user and message of a row of
    the table. *)
Theorem recentN_size_and_origin (n : Z) (table : list Row) :
  (0 <= n)%Z ->
  length (recentN n table) = Nat.min (Z.to_nat n) (length table)
  /\ forall x, In x (recentN n table) ->
               exists r, In r table /\ columns r = x.
Proof.
  intros Hn. unfold recentN, select_recent, sql_limit.
  destruct (n <? 0)%Z eqn:E; [apply Z.ltb_lt in E; lia|].
  split.
  - rewrite length_rev, length_map, length_firstn, order_by_id_desc_length.
    reflexivity.
  - intros x Hx. apply in_rev, in_map_iff in Hx.
    destruct Hx as (r & Hc & Hr). exists r. split; [|exact Hc].
    apply in_firstn in Hr.
    eapply Permutation_in; [|exact Hr].
    apply Permutation_sym, order_by_id_desc_perm.
Qed.

Lemma recentN_size_and_origin_witness :
  length (recentN 2 (Sample.shuffled (logs Sample.three_entries)))
  = Nat.min (Z.to_nat 2) (length (Sample.shuffled (logs Sample.three_entries)))
  /\ forall x,
       In x (recentN 2 (Sample.shuffled (logs Sample.three_entries))) ->
       exists r, In r (Sample.shuffled (logs Sample.three_entries))
                 /\ columns r = x.
Proof.
  apply (@recentN_size_and_origin 2
           (Sample.shuffled (logs Sample.three_entries))).
  lia.
Defined.

(** X11. Appending slides the window of a recall by one: on a reachable
    Chronicle and for [n >= 1], the recall read after an append is the
    recall read of [n - 1] before it, followed by the new entry. *)
Theorem recentN_after_append (d : DB) (ts usr msg : str) (n : Z) :
  reachable d ->
  (1 <= n)%Z ->
  recentN n (logs (insert_row ts usr msg d))
  = recentN (n - 1) (logs d) ++ [(ts, usr, msg)].
Proof.
  intros Hr Hn. apply reachable_consecutive in Hr.
  pose proof (insert_row_consecutive ts usr msg Hr) as H1.
  rewrite (recentN_ascending (consecutive_sorted H1) (Permutation_refl _))
    by lia.
  rewrite (recentN_ascending (consecutive_sorted Hr) (Permutation_refl _))
    by lia.
  cbn [insert_row logs]. rewrite length_app. cbn [length].
  replace (length (logs d) + 1 - Z.to_nat n)%nat
    with (length (logs d) - Z.to_nat (n - 1))%nat by lia.
  rewrite skipn_app, map_app.
  replace (length (logs d) - Z.to_nat (n - 1) - length (logs d))%nat
    with 0%nat by lia.
  reflexivity.
Qed.

Lemma recentN_after_append_witness :
  recentN 2 (logs (insert_row (lit "T") (lit "alice") (lit "hello")
                     Sample.three_entries))
  = recentN (2 - 1) (logs Sample.three_entries)
      ++ [(lit "T", lit "alice", lit "hello")].
Proof.
  apply (@recentN_after_append Sample.three_entries (lit "T") (lit "alice")
           (lit "hello") 2).
  - exact three_entries_reachable.
  - lia.
Defined.

(* ------------------------------------------------------------------ *)
(** ** What a recall answers *)

Lemma select_recent_length n rows :
  (0 <= n)%Z ->
  length (select_recent n rows) = Nat.min (Z.to_nat n) (length rows).
Proof.
  intros Hn. unfold select_recent, sql_limit.
  destruct (n <? 0)%Z eqn:E; [apply Z.ltb_lt in E; lia|].
  now rewrite length_map, length_firstn, order_by_id_desc_length.
Qed.

Lemma read_fails_false env :
  read_fails env = false ->
  fails_at env AtConnect = false
  /\ fails_at env AtExecute = false
  /\ fails_at env AtFetch = false.
Proof.
  unfold read_fails. intros H.
  apply orb_false_elim in H. destruct H as [H H3].
  apply orb_false_elim in H. destruct H as [H1 H2]. auto.
Qed.

(** A recall whose limit is computed and whose store calls go through. *)
Lemma handle_recall_command_read env message d n :
  recall_limit (content message) = Ok n ->
  read_fails env = false ->
  handle_recall_command env message d
  = let failed :=
      after [Execute (SelectRecent n)] (send env (Text recall_failed) d) in
    if (length (select_recent n (logs d)) =? 0)%nat
    then
      match send_raises env (Text chronicle_empty) with
      | None =>
          (Ok tt, d, [Execute (SelectRecent n); Send (Text chronicle_empty)])
      | Some _ => failed
      end
    else
      match for_each (recall_field env) (rev (select_recent n (logs d))) d with
      | (Ok fields, _, _) =>
          let report :=
            recall_report (length (select_recent n (logs d))) fields in
          match send_raises env (Rich report) with
          | None => (Ok tt, d, [Execute (SelectRecent n); Send (Rich report)])
          | Some _ => failed
          end
      | (Raise _, _, _) => failed
      end.
Proof.
  intros Hl Hf. destruct (@read_fails_false env Hf) as (H1 & H2 & H3).
  unfold handle_recall_command. run_handler. rewrite Hl, H1, H2, H3.
  cbv zeta.
  destruct (length (select_recent n (logs d)) =? 0)%nat;
    [on_sends; reflexivity|].
  destruct (for_each_recall_field env (rev (select_recent n (logs d))) d)
    as [r Hr].
  rewrite Hr. destruct r; on_sends; reflexivity.
Qed.

(** X12. When the limit is computed and the store calls go through, a
    recall answers that the Chronicle is empty only if the limit is 0 or
    the table has no row; and with a gateway that takes this answer, it
    does so whenever the limit is 0 or the table has no row. *)
Theorem recall_says_empty_iff (env : Env) (message : Message) (d : DB)
    (n : Z) :
  recall_limit (content message) = Ok n ->
  read_fails env = false ->
  (responses (snd (handle_recall_command env message d))
   = [Text chronicle_empty] ->
   n = 0%Z \/ logs d = [])
  /\ (accepts env (Text chronicle_empty) ->
      (responses (snd (handle_recall_command env message d))
       = [Text chronicle_empty]
       <-> n = 0%Z \/ logs d = [])).
Proof.
  intros Hl Hf.
  pose proof (@recall_limit_range _ n Hl) as Hn.
  pose proof (@select_recent_length n (logs d) ltac:(lia)) as Hlen.
  assert (responses (snd (handle_recall_command env message d))
          = [Text chronicle_empty] -> n = 0%Z \/ logs d = []) as Honly.
  { rewrite (@handle_recall_command_read env message d n Hl Hf). cbv zeta.
    unfold after, send.
    destruct (length (select_recent n (logs d)) =? 0)%nat eqn:E.
    - apply Nat.eqb_eq in E. intros _. rewrite E in Hlen.
      destruct (logs d); [now right | left; simpl in Hlen; lia].
    - destruct (for_each _ _ d) as [[[fields|e] d'] t]; on_sends; simpl;
        intros H; try discriminate;
        injection H as H; vm_compute in H; discriminate. }
  split; [exact Honly|].
  intros Ha. split; [exact Honly|]. intros H. unfold accepts in Ha.
  rewrite (@handle_recall_command_read env message d n Hl Hf). cbv zeta.
  assert (length (select_recent n (logs d)) = 0%nat) as ->; [|now rewrite Ha].
  rewrite Hlen. destruct H as [-> | ->]; [reflexivity | simpl; lia].
Qed.

Lemma recall_says_empty_iff_witness :
  (responses (snd (handle_recall_command Sample.env Sample.recall_zero
                     Sample.three_entries)) = [Text chronicle_empty] ->
   0%Z = 0%Z \/ logs Sample.three_entries = [])
  /\ (accepts Sample.env (Text chronicle_empty) ->
      (responses (snd (handle_recall_command Sample.env Sample.recall_zero
                         Sample.three_entries)) = [Text chronicle_empty]
       <-> 0%Z = 0%Z \/ logs Sample.three_entries = [])).
Proof.
  apply (@recall_says_empty_iff Sample.env Sample.recall_zero
           Sample.three_entries 0); reflexivity.
Defined.

Lemma for_each_recall_field_bad env rows d :
  Exists (fun row => reformat_time env (fst (fst row)) = None) rows ->
  for_each (recall_field env) rows d = (Raise ValueError, d, []).
Proof.
  induction rows as [|[[ts usr] msg] rows IH]; intros H.
  - inversion H.
  - cbn [for_each]. unfold bind at 1. unfold recall_field at 1.
    destruct (reformat_time env ts) as [shown|] eqn:Et; [|reflexivity].
    unfold ret at 1. unfold bind at 1.
    rewrite IH; [reflexivity|].
    inversion H as [? ? Hh | ? ? Ht]; subst; [|exact Ht].
    cbn [fst] in Hh. congruence.
Qed.

(** X13. One stored timestamp that [fromisoformat] rejects, among the rows
    a recall selects, spoils the whole recall: after the select all that
    is sent is the failure text, and no part of the report. *)
Theorem recall_bad_timestamp (env : Env) (message : Message) (d : DB)
    (n : Z) :
  recall_limit (content message) = Ok n ->
  read_fails env = false ->
  Exists (fun row => reformat_time env (fst (fst row)) = None)
    (recentN n (logs d)) ->
  handle_recall_command env message d
  = after [Execute (SelectRecent n)] (send env (Text recall_failed) d)
  /\ (accepts env (Text recall_failed) ->
      handle_recall_command env message d
      = (Ok tt, d, [Execute (SelectRecent n); Send (Text recall_failed)])).
Proof.
  intros Hl Hf Hbad.
  assert (handle_recall_command env message d
          = after [Execute (SelectRecent n)]
              (send env (Text recall_failed) d)) as E.
  { rewrite (@handle_recall_command_read env message d n Hl Hf). cbv zeta.
    unfold recentN in Hbad.
    rewrite (@for_each_recall_field_bad env _ d Hbad).
    destruct (select_recent n (logs d)); [inversion Hbad | reflexivity]. }
  split; [exact E|].
  intros Ha. rewrite E. unfold after. now rewrite send_accepted.
Qed.

Lemma recall_bad_timestamp_witness :
  handle_recall_command Sample.env Sample.recall_plain
    Sample.with_bad_timestamp
  = after [Execute (SelectRecent 5)]
      (send Sample.env (Text recall_failed) Sample.with_bad_timestamp)
  /\ (accepts Sample.env (Text recall_failed) ->
      handle_recall_command Sample.env Sample.recall_plain
        Sample.with_bad_timestamp
      = (Ok tt, Sample.with_bad_timestamp,
         [Execute (SelectRecent 5); Send (Text recall_failed)])).
Proof.
  apply (@recall_bad_timestamp Sample.env Sample.recall_plain
           Sample.with_bad_timestamp 5); try reflexivity.
  vm_compute. left. reflexivity.
Defined.

(** X14. A recall during which a sqlite3 call raises sends nothing but
    the failure text, and the Chronicle is as before; with a gateway that
    takes the failure text, that text is the one response. *)
Theorem recall_store_failure (env : Env) (message : Message) (d : DB) :
  read_fails env = true ->
  (exists pre,
      handle_recall_command env message d
      = after pre (send env (Text recall_failed) d)
      /\ responses pre = [])
  /\ (accepts env (Text recall_failed) ->
      exists t,
        handle_recall_command env message d = (Ok tt, d, t)
        /\ responses t = [Text recall_failed]).
Proof.
  intros Hf.
  assert (exists pre,
             handle_recall_command env message d
             = after pre (send env (Text recall_failed) d)
             /\ responses pre = []) as (pre & E & Hpre).
  { revert Hf. unfold read_fails, handle_recall_command. run_handler.
    intros Hf.
    destruct (recall_limit (content message));
      [|exists []; on_sends; split; reflexivity].
    destruct (fails_at env AtConnect);
      [exists []; on_sends; split; reflexivity|].
    destruct (fails_at env AtExecute);
      [eexists [_]; on_sends; split; reflexivity|].
    destruct (fails_at env AtFetch); [|discriminate].
    eexists [_]; on_sends; split; reflexivity. }
  split; [eauto|].
  intros Ha. rewrite E. unfold after. rewrite send_accepted by assumption.
  eexists. split; [reflexivity|].
  unfold responses in *. rewrite flat_map_app, Hpre. reflexivity.
Qed.

Lemma recall_store_failure_witness :
  (exists pre,
      handle_recall_command (Sample.env_with (Some AtFetch))
        Sample.recall_seven Sample.three_entries
      = after pre (send (Sample.env_with (Some AtFetch)) (Text recall_failed)
                     Sample.three_entries)
      /\ responses pre = [])
  /\ (accepts (Sample.env_with (Some AtFetch)) (Text recall_failed) ->
      exists t,
        handle_recall_command (Sample.env_with (Some AtFetch))
          Sample.recall_seven Sample.three_entries
        = (Ok tt, Sample.three_entries, t)
        /\ responses t = [Text recall_failed]).
Proof.
  apply (recall_store_failure (Sample.env_with (Some AtFetch))
           Sample.recall_seven Sample.three_entries).
  reflexivity.
Defined.

Lemma fields_of_rows env rows fields :
  Forall2 (fun row field =>
             exists shown,
               reformat_time env (fst (fst row)) = Some shown
               /\ field = (lit "Logged by " ++ tick ++ snd (fst row) ++ tick
                             ++ lit " at " ++ tick ++ shown ++ tick,
                           fence ++ snd row ++ fence))
    rows fields ->
  map snd fields = map (fun row => fence ++ snd row ++ fence) rows.
Proof.
  induction 1 as [|row field rows fields (shown & _ & ->) _ IH]; simpl;
    [reflexivity | now f_equal].
Qed.

(** X15. On a reachable, non-empty Chronicle whose timestamps all reformat,
    a recall with limit [n > 0] whose store calls go through builds one
    report: it announces [min n m] entries out of the [m] stored, and its
    fields carry, oldest first, the messages of the last [min n m] entries,
    each verbatim between code fences.  If the gateway takes the report, it
    is the one response; if the gateway refuses it, all that is sent after
    the select is the failure text. *)
Theorem recall_reports_last_entries (env : Env) (event : Message) (d : DB)
    (n : Z) :
  recall_limit (content event) = Ok n ->
  read_fails env = false ->
  reachable d ->
  n <> 0%Z ->
  logs d <> [] ->
  Forall (fun r => reformat_time env (timestamp r) <> None) (logs d) ->
  exists e,
    embed_description e
    = lit "Displaying the last "
        ++ of_nat (Nat.min (Z.to_nat n) (length (logs d)))
        ++ lit " entries."
    /\ map snd (embed_fields e)
       = map (fun r => fence ++ message r ++ fence)
           (skipn (length (logs d) - Z.to_nat n) (logs d))
    /\ (accepts env (Rich e) ->
        handle_recall_command env event d
        = (Ok tt, d, [Execute (SelectRecent n); Send (Rich e)]))
    /\ (send_raises env (Rich e) <> None ->
        handle_recall_command env event d
        = after [Execute (SelectRecent n)]
            (send env (Text recall_failed) d)).
Proof.
  intros Hl Hf Hr Hn0 Hne Hall.
  pose proof (@recall_limit_range _ n Hl) as Hn.
  apply reachable_consecutive, consecutive_sorted in Hr.
  pose proof (@recentN_ascending (logs d) (logs d) n Hr (Permutation_refl _)
                ltac:(lia)) as Hrec.
  unfold recentN in Hrec.
  pose proof (@select_recent_length n (logs d) ltac:(lia)) as Hlen.
  assert (Forall (fun row => reformat_time env (fst (fst row)) <> None)
            (rev (select_recent n (logs d)))) as Hfmt.
  { rewrite Hrec. rewrite Forall_forall in *. intros row Hin.
    apply in_map_iff in Hin. destruct Hin as (r & <- & Hin).
    cbn [columns fst]. apply Hall.
    rewrite <- (firstn_skipn (length (logs d) - Z.to_nat n) (logs d)).
    apply in_or_app. now right. }
  destruct (@for_each_recall_field_ok env _ d Hfmt) as (fields & Hrun & Hf2).
  rewrite (@handle_recall_command_read env event d n Hl Hf), Hrun.
  destruct (length (select_recent n (logs d)) =? 0)%nat eqn:E.
  { apply Nat.eqb_eq in E. rewrite E in Hlen.
    destruct (logs d); [congruence | simpl in Hlen; lia]. }
  cbv beta iota zeta.
  exists (recall_report (length (select_recent n (logs d))) fields).
  cbn [recall_report embed_description embed_fields]. unfold accepts.
  split; [now rewrite Hlen|]. split.
  { etransitivity; [exact (@fields_of_rows env _ _ Hf2)|].
    rewrite Hrec, map_map. reflexivity. }
  split; intros Hs.
  - now rewrite Hs.
  - destruct (send_raises env (Rich _)); [reflexivity | congruence].
Qed.

Lemma recall_reports_last_entries_witness :
  exists e,
    embed_description e
    = lit "Displaying the last "
        ++ of_nat (Nat.min (Z.to_nat 7) (length (logs Sample.three_entries)))
        ++ lit " entries."
    /\ map snd (embed_fields e)
       = map (fun r => fence ++ message r ++ fence)
           (skipn (length (logs Sample.three_entries) - Z.to_nat 7)
              (logs Sample.three_entries))
    /\ (accepts Sample.env_reports_refused (Rich e) ->
        handle_recall_command Sample.env_reports_refused Sample.recall_seven
          Sample.three_entries
        = (Ok tt, Sample.three_entries,
           [Execute (SelectRecent 7); Send (Rich e)]))
    /\ (send_raises Sample.env_reports_refused (Rich e) <> None ->
        handle_recall_command Sample.env_reports_refused Sample.recall_seven
          Sample.three_entries
        = after [Execute (SelectRecent 7)]
            (send Sample.env_reports_refused (Text recall_failed)
               Sample.three_entries)).
Proof.
  apply (@recall_reports_last_entries Sample.env_reports_refused
           Sample.recall_seven Sample.three_entries 7).
  - reflexivity.
  - reflexivity.
  - exact three_entries_reachable.
  - discriminate.
  - discriminate.
  - vm_compute. repeat constructor; discriminate.
Defined.

(* ------------------------------------------------------------------ *)
(** ** The limit argument *)

Lemma int_digits_raises s : forall acc e,
  int_digits acc s = Raise e
  <-> e = ValueError /\ forallb isdecimal_char s = false.
Proof.
  induction s as [|c s IH]; intros acc e; cbn [int_digits forallb].
  - split; [discriminate | intros [_ H]; discriminate].
  - unfold isdecimal_char at 1.
    destruct (decimal_value c) as [dv|]; cbn [andb].
    + apply IH.
    + split; [intros H; injection H as <-; auto | intros [-> _]; reflexivity].
Qed.

(** X16. Computing the limit of a recall fails in one case only: the second
    token passes [isdigit()] and holds a character without decimal value.
    The failure is the [ValueError] of [int()]. *)
Theorem recall_limit_raises_iff (text : str) (e : exn) :
  recall_limit text = Raise e
  <-> e = ValueError
      /\ (1 < length (split text))%nat
      /\ isdigit (nth 1 (split text) []) = true
      /\ forallb isdecimal_char (nth 1 (split text) []) = false.
Proof.
  unfold recall_limit, py_int.
  destruct (1 <? length (split text))%nat eqn:El; cbn [andb].
  - apply Nat.ltb_lt in El.
    destruct (isdigit (nth 1 (split text) [])) eqn:Ed.
    + destruct (int_digits 0 (nth 1 (split text) [])) as [v|e'] eqn:Ei.
      * split; [discriminate|]. intros (-> & _ & _ & Hd).
        assert (int_digits 0 (nth 1 (split text) []) = Raise ValueError) as H
            by (apply int_digits_raises; auto).
        congruence.
      * apply int_digits_raises in Ei. destruct Ei as [-> Hd].
        split; [intros H; injection H as <-; auto | intros (-> & _); reflexivity].
    + split; [discriminate | intros (_ & _ & H & _); discriminate].
  - apply Nat.ltb_ge in El.
    split; [discriminate | intros (_ & H & _); lia].
Qed.

Lemma int_digits_of_uint u : forall acc,
  int_digits (Z.of_nat acc)
    (of_string (DecimalString.NilEmpty.string_of_uint u))
  = Ok (Z.of_nat (Nat.of_uint_acc u acc)).
Proof.
  induction u as [|u IH|u IH|u IH|u IH|u IH|u IH|u IH|u IH|u IH|u IH];
    intros acc;
    cbn [DecimalString.NilEmpty.string_of_uint of_string int_digits
         Nat.of_uint_acc];
    [reflexivity | ..];
    rewrite Nat.tail_mul_spec;
    match goal with
    | |- context [decimal_value ?c] =>
        let v := eval vm_compute in (decimal_value c) in
        change (decimal_value c) with v
    end;
    cbv iota beta; rewrite <- IH; f_equal; lia.
Qed.

(** [int(str(n))] is [n]. *)
Lemma py_int_of_nat n : py_int (of_nat n) = Ok (Z.of_nat n).
Proof.
  unfold py_int, of_nat.
  pose proof (int_digits_of_uint (Nat.to_uint n) 0) as H.
  change (Z.of_nat 0) with 0%Z in H.
  change (Nat.of_uint_acc (Nat.to_uint n) 0)
    with (Nat.of_uint (Nat.to_uint n)) in H.
  now rewrite DecimalNat.Unsigned.of_to in H.
Qed.

Lemma uint_digits u :
  forallb (fun c => isdecimal_char c && negb (isspace c))
    (of_string (DecimalString.NilEmpty.string_of_uint u)) = true.
Proof.
  induction u; cbn [DecimalString.NilEmpty.string_of_uint of_string forallb];
    [reflexivity | rewrite IHu; reflexivity ..].
Qed.

Lemma of_nat_digits n :
  of_nat n <> []
  /\ forallb isdecimal_char (of_nat n) = true
  /\ existsb isspace (of_nat n) = false.
Proof.
  pose proof (uint_digits (Nat.to_uint n)) as H. fold (of_nat n) in H.
  rewrite forallb_forall in H. repeat split.
  - intros E. pose proof (py_int_of_nat n) as Hi. rewrite E in Hi.
    injection Hi as Hi. destruct n; [discriminate E | lia].
  - apply forallb_forall. intros c Hc.
    apply H in Hc. now apply andb_prop in Hc.
  - destruct (existsb isspace (of_nat n)) eqn:Ex; [|reflexivity].
    apply existsb_exists in Ex. destruct Ex as (c & Hc & Hs).
    apply H in Hc. apply andb_prop in Hc. destruct Hc as [_ Hc].
    rewrite Hs in Hc. discriminate.
Qed.

Lemma split_from_word w : forall word s,
  existsb isspace w = false ->
  split_from word (w ++ s) = split_from (word ++ w) s.
Proof.
  induction w as [|c w IH]; intros word s Hw; simpl.
  - now rewrite app_nil_r.
  - simpl in Hw. apply orb_false_elim in Hw. destruct Hw as [Hc Hw].
    rewrite Hc, IH by assumption. now rewrite <- app_assoc.
Qed.

Lemma split_from_end w word :
  existsb isspace w = false -> split_from word w = flush (word ++ w).
Proof.
  intros Hw. rewrite <- (app_nil_r w) at 1.
  now rewrite split_from_word.
Qed.

(** X17. An ordinary decimal argument means what it says: for every natural
    number [n], the text [!recall n] (with [n] written as [str(n)]) gives
    the limit [min n 20]. *)
Theorem recall_decimal_argument (n : nat) :
  recall_limit (lit "!recall " ++ of_nat n) = Ok (Z.min (Z.of_nat n) 20).
Proof.
  destruct (of_nat_digits n) as (Hne & Hdec & Hsp).
  assert (split (lit "!recall " ++ of_nat n) = [lit "!recall"; of_nat n]) as Hs.
  { unfold split.
    change (lit "!recall " ++ of_nat n)
      with (lit "!recall" ++ 32%N :: of_nat n).
    rewrite split_from_word by reflexivity.
    cbn [app split_from]. change (isspace 32%N) with true. cbv iota.
    rewrite split_from_end by assumption.
    cbn [app]. destruct (of_nat n); [congruence | reflexivity]. }
  destruct (@recall_limit_decimal (lit "!recall " ++ of_nat n) (of_nat n))
    as (v & Hv & Hl); try assumption.
  - now rewrite Hs.
  - rewrite py_int_of_nat in Hv. injection Hv as <-. exact Hl.
Qed.

(* ------------------------------------------------------------------ *)
(** ** The dispatch loop as a whole *)

(** X18. Nothing but a failed [channel.send] leaves [on_message]: whatever
    the text, whichever sqlite3 call fails and whatever the collaborators
    return, the dispatcher returns or raises the gateway's exception, every
    other exception being caught inside its handler; and when the gateway
    takes every response, the dispatcher returns. *)
Theorem only_send_failures_escape (env : Env) (message : Message) (d : DB) :
  exists r t,
    on_message env message d = (r, db_after env message d, t)
    /\ (r = Ok tt \/ exists detail, r = Raise (GatewayError detail))
    /\ (accepts_all env -> r = Ok tt).
Proof.
  destruct (on_message_result env message d) as [H Ha].
  unfold db_after.
  destruct (on_message env message d) as [[r d'] t].
  exists r, t. cbn [fst snd] in *. auto.
Qed.

(** X19. The Chronicle is the record of the committed appends, in the
    order of their events: after any stream of events the table is the
    table before, followed by one row per committed log event, holding that
    event's timestamp, author string and trimmed text. *)
Theorem chronicle_records_in_order (events : list (Env * Message)) :
  forall d,
    exists new_entries,
      logs (run_events events d) = logs d ++ new_entries
      /\ map columns new_entries = map entry_of (committed events).
Proof.
  induction events as [|[env message] events IH]; intros d.
  - exists []. rewrite app_nil_r. split; reflexivity.
  - cbn [run_events]. unfold committed in *. cbn [filter fst snd].
    rewrite db_after_cases.
    destruct (commits_append env message).
    + destruct (IH (insert_row (utcnow_isoformat env)
                      (user_str (author message)) (log_content message) d))
        as (new' & Hl & Hc).
      exists ({| id := next_rowid d;
                 timestamp := utcnow_isoformat env;
                 user := user_str (author message);
                 message := log_content message |} :: new').
      cbn [insert_row logs] in Hl. rewrite Hl, <- app_assoc.
      split; [reflexivity|]. cbn [map]. now rewrite Hc.
    + apply IH.
Qed.

(* ------------------------------------------------------------------ *)
(** ** Arguments *)

Lemma second_token_view (parts : list str) :
  (length parts <? 2)%nat
  = match nth_error parts 1 with Some _ => false | None => true end
  /\ nth 1 parts []
     = match nth_error parts 1 with Some w => w | None => [] end.
Proof. destruct parts as [|p [|q parts]]; split; reflexivity. Qed.

Lemma second_token_present (parts : list str) :
  (1 <? length parts)%nat
  = match nth_error parts 1 with Some _ => true | None => false end.
Proof. destruct parts as [|p [|q parts]]; reflexivity. Qed.

(** X20. Of the text of a scrape, time or recall event only the second
    token counts: two texts with the same second token (or both without
    one) get the same limit, and from the same author the same scrape and
    time answers; further tokens are ignored. *)
Theorem only_second_token_counts (env : Env) (who : User) (text1 text2 : str)
    (d : DB) :
  nth_error (split text1) 1 = nth_error (split text2) 1 ->
  recall_limit text1 = recall_limit text2
  /\ handle_scrape_command env {| author := who; content := text1 |} d
     = handle_scrape_command env {| author := who; content := text2 |} d
  /\ handle_time_command env {| author := who; content := text1 |} d
     = handle_time_command env {| author := who; content := text2 |} d.
Proof.
  intros H.
  destruct (second_token_view (split text1)) as [L1 N1].
  destruct (second_token_view (split text2)) as [L2 N2].
  pose proof (second_token_present (split text1)) as P1.
  pose proof (second_token_present (split text2)) as P2.
  rewrite H in L1, N1, P1. rewrite <- L2 in L1. rewrite <- N2 in N1.
  rewrite <- P2 in P1.
  unfold recall_limit, handle_scrape_command, handle_time_command.
  cbn [content author]. rewrite L1, N1, P1. auto.
Qed.

Lemma only_second_token_counts_witness :
  recall_limit (content Sample.time_paris)
  = recall_limit (content Sample.time_paris_short)
  /\ handle_scrape_command Sample.env Sample.time_paris Sample.one_entry
     = handle_scrape_command Sample.env Sample.time_paris_short Sample.one_entry
  /\ handle_time_command Sample.env Sample.time_paris Sample.one_entry
     = handle_time_command Sample.env Sample.time_paris_short Sample.one_entry.
Proof.
  apply (@only_second_token_counts Sample.env Sample.bob
           (content Sample.time_paris) (content Sample.time_paris_short)
           Sample.one_entry).
  reflexivity.
Defined.
